(** * FastAnalogRead: the responsive filter of [FastAnalogRead.cpp]

    A shallow embedding of [FastAnalogRead::update],
    [FastAnalogRead::getResponsiveValue], [FastAnalogRead::snapCurve] and
    [FastAnalogRead::setSnapMultiplier], followed by the properties of the
    filter: output bounds, the sleep freeze, the snap curve, the error
    estimator, the edge snap, and what repeated identical samples do. *)

From Stdlib Require Import ZArith QArith Qcanon Qround.
From Stdlib Require Import Lia Lqa List Bool Morphisms.
Import ListNotations.

Local Open Scope Qc_scope.

(** ** The numeric type *)

Module Fixed.

(** Modelled from the spec: the type [FastAnalogFixed] is declared in
    [FastAnalogRead.h], which is not among the sources.  The data model
    calls its values real numbers with the usual [+ - * /] and
    comparisons, converted to an integer by truncation toward zero.  They
    are taken here as exact rationals in lowest terms, so that two equal
    values are the same term. *)
Definition FastAnalogFixed : Set := Qc.

(** Conversion of a C++ integer ([int], [uint16_t]) to the numeric type. *)
Definition ofInt (z : Z) : FastAnalogFixed := Q2Qc (inject_Z z).

(** [x.getInteger()]: the integer part, fraction discarded. *)
Definition getInteger (x : FastAnalogFixed) : Z :=
  Z.quot (Qnum x) (QDen x).

(** [x > y] and [x < y] as the code tests them. *)
Definition gtb (x y : FastAnalogFixed) : bool :=
  match x ?= y with Gt => true | _ => false end.

Definition ltb (x y : FastAnalogFixed) : bool :=
  match x ?= y with Lt => true | _ => false end.

(** Arduino's [abs] macro: [((x)>0?(x):-(x))]. *)
Definition abs (x : FastAnalogFixed) : FastAnalogFixed :=
  if gtb x 0 then x else - x.

End Fixed.

Import Fixed.

Infix ">?" := gtb (at level 70, no associativity) : Qc_scope.
Infix "<?" := ltb (at level 70, no associativity) : Qc_scope.

(** ** The object *)

(** The members of [FastAnalogRead] that the filter reads or writes.  The
    threshold and the resolution are integers, as the data model has them. *)
Record FastAnalogRead : Set := mkFastAnalogRead {
  pin : Z;
  sleepEnable : bool;
  edgeSnapEnable : bool;
  activityThreshold : Z;
  analogResolution : Z;
  snapMultiplier : FastAnalogFixed;
  smoothValue : FastAnalogFixed;
  errorEMA : FastAnalogFixed;
  sleeping : bool;
  rawValue : Z;
  responsiveValue : Z;
  prevResponsiveValue : Z;
  responsiveValueHasChanged : bool
}.

Definition const_c0 : FastAnalogFixed := ofInt 0.
Definition const_c1 : FastAnalogFixed := ofInt 1.
Definition const_c2 : FastAnalogFixed := ofInt 2.

(** [static const FastAnalogFixed errorMargin = 0.4;] *)
Definition errorMargin : FastAnalogFixed := Q2Qc (4 # 10).

(** ** [snapCurve] and [setSnapMultiplier] *)

Definition snapCurve (x : FastAnalogFixed) : FastAnalogFixed :=
  let y := const_c1 / (x + const_c1) in
  let y := (const_c1 - y) * const_c2 in
  if y >? 1 then const_c1 else y.

Definition with_snapMultiplier (f : FastAnalogRead) (m : FastAnalogFixed)
  : FastAnalogRead :=
  mkFastAnalogRead (pin f) (sleepEnable f) (edgeSnapEnable f)
    (activityThreshold f) (analogResolution f) m (smoothValue f)
    (errorEMA f) (sleeping f) (rawValue f) (responsiveValue f)
    (prevResponsiveValue f) (responsiveValueHasChanged f).

Definition setSnapMultiplier (f : FastAnalogRead)
    (newMultiplier : FastAnalogFixed) : FastAnalogRead :=
  if newMultiplier >? const_c1 then with_snapMultiplier f const_c1
  else if newMultiplier <? const_c0 then with_snapMultiplier f const_c0
  else with_snapMultiplier f newMultiplier.

(** [begin]: the pin set-up is hardware configuration; the object keeps the
    pin and the sleep flag and stores the multiplier through the setter. *)
Definition begin (f : FastAnalogRead) (pin' : Z) (sleepEnable' : bool)
    (snapMultiplier' : FastAnalogFixed) : FastAnalogRead :=
  setSnapMultiplier
    (mkFastAnalogRead pin' sleepEnable' (edgeSnapEnable f)
       (activityThreshold f) (analogResolution f) (snapMultiplier f)
       (smoothValue f) (errorEMA f) (sleeping f) (rawValue f)
       (responsiveValue f) (prevResponsiveValue f)
       (responsiveValueHasChanged f))
    snapMultiplier'.

(** ** [getResponsiveValue], statement by statement *)

(** Lines 64-70: the edge snap applied to the incoming value. *)
Definition edgeSnap (f : FastAnalogRead) (newValue : FastAnalogFixed)
  : FastAnalogFixed :=
  if sleepEnable f && edgeSnapEnable f then
    if newValue <? ofInt (activityThreshold f) then
      newValue - ofInt (activityThreshold f) + newValue
    else if newValue >? ofInt (analogResolution f - activityThreshold f) then
      newValue + ofInt (activityThreshold f) - ofInt (analogResolution f)
        + newValue
    else newValue
  else newValue.

(** Lines 77-82: [diff], an integer stored back into the numeric type. *)
Definition deviation (f : FastAnalogRead) (newValue : FastAnalogFixed) : Z :=
  if newValue >? smoothValue f
  then getInteger (newValue - smoothValue f)
  else getInteger (smoothValue f - newValue).

(** Line 89: the error estimator. *)
Definition nextErrorEMA (f : FastAnalogRead) (newValue : FastAnalogFixed)
  : FastAnalogFixed :=
  errorEMA f + ((newValue - smoothValue f) - errorEMA f) * errorMargin.

(** Lines 92-95: the sleeping flag, recomputed only when sleep is enabled. *)
Definition nextSleeping (f : FastAnalogRead) (newValue : FastAnalogFixed)
  : bool :=
  if sleepEnable f
  then abs (nextErrorEMA f newValue) <? ofInt (activityThreshold f)
  else sleeping f.

(** Line 114. *)
Definition snapOf (f : FastAnalogRead) (newValue : FastAnalogFixed)
  : FastAnalogFixed :=
  snapCurve (ofInt (deviation f newValue) * snapMultiplier f).

(** Lines 127-130: the clamp of [smoothValue]. *)
Definition clampSmooth (f : FastAnalogRead) (s : FastAnalogFixed)
  : FastAnalogFixed :=
  if s <? const_c0 then ofInt 0
  else if s >? ofInt (analogResolution f) - const_c1
       then ofInt (analogResolution f) - const_c1
       else s.

Definition with_filter (f : FastAnalogRead) (s e : FastAnalogFixed)
    (sl : bool) : FastAnalogRead :=
  mkFastAnalogRead (pin f) (sleepEnable f) (edgeSnapEnable f)
    (activityThreshold f) (analogResolution f) (snapMultiplier f) s e sl
    (rawValue f) (responsiveValue f) (prevResponsiveValue f)
    (responsiveValueHasChanged f).

(** The member function: the object after the call and the returned [int]. *)
Definition getResponsiveValue (f : FastAnalogRead)
    (newValue : FastAnalogFixed) : FastAnalogRead * Z :=
  let newValue := edgeSnap f newValue in
  let e := nextErrorEMA f newValue in
  let sl := nextSleeping f newValue in
  if sleepEnable f && sl then
    (with_filter f (smoothValue f) e sl, getInteger (smoothValue f))
  else
    let snap := snapOf f newValue in
    let s := clampSmooth f (smoothValue f + (newValue - smoothValue f) * snap) in
    (with_filter f s e sl, getInteger s).

(** ** [update(uint16_t)] *)

(** [rawValueRead] is the integer held by the [uint16_t] argument; it is
    stored, and converted to the numeric type for [getResponsiveValue]. *)
Definition update (f : FastAnalogRead) (rawValueRead : Z) : FastAnalogRead :=
  let prev := responsiveValue f in
  let '(g, r) := getResponsiveValue f (ofInt rawValueRead) in
  mkFastAnalogRead (pin g) (sleepEnable g) (edgeSnapEnable g)
    (activityThreshold g) (analogResolution g) (snapMultiplier g)
    (smoothValue g) (errorEMA g) (sleeping g)
    rawValueRead r prev (negb (Z.eqb r prev)).

(** Every object a sequence of samples goes through, one per call. *)
Fixpoint trace (f : FastAnalogRead) (raws : list Z) : list FastAnalogRead :=
  match raws with
  | [] => []
  | r :: rest => update f r :: trace (update f r) rest
  end.

(** The same sample fed [n] times. *)
Fixpoint feed (n : nat) (f : FastAnalogRead) (v : Z) : FastAnalogRead :=
  match n with
  | O => f
  | S k => feed k (update f v) v
  end.

(** ** Predicates used by the statements *)

(** [smoothValue] lies in [[0, analogResolution - 1]]. *)
Definition in_bounds (f : FastAnalogRead) : Prop :=
  0 <= smoothValue f /\ smoothValue f <= ofInt (analogResolution f - 1).

(** The stored integer output is the truncation of [smoothValue]. *)
Definition output_fresh (f : FastAnalogRead) : Prop :=
  responsiveValue f = getInteger (smoothValue f).

(** This call takes the early return of line 101. *)
Definition sleeps (f : FastAnalogRead) (raw : Z) : bool :=
  sleepEnable f && nextSleeping f (edgeSnap f (ofInt raw)).

(** Every call of the sequence takes the early return. *)
Fixpoint all_sleep (f : FastAnalogRead) (raws : list Z) : bool :=
  match raws with
  | [] => true
  | r :: rest => sleeps f r && all_sleep (update f r) rest
  end.

(** [smoothValue] converges to [v] when [v] is fed over and over. *)
Definition converges_to (f : FastAnalogRead) (v : Z) : Prop :=
  forall eps : Qc, 0 < eps ->
    exists N : nat, forall n : nat, (N <= n)%nat ->
      abs (smoothValue (feed n f v) - ofInt v) < eps.

(** Sleep is off, the multiplier is positive and the sample [v] is in range:
    the setting in which one sample is fed over and over. *)
Definition awake (v : Z) (f : FastAnalogRead) : Prop :=
  sleepEnable f = false /\ 0 < snapMultiplier f /\
  (0 <= v < analogResolution f)%Z.

(** A zero-initialised object with the given configuration. *)
Definition fresh (sleepOn edgeOn : bool) (threshold resolution : Z)
    (multiplier : FastAnalogFixed) : FastAnalogRead :=
  mkFastAnalogRead 0 sleepOn edgeOn threshold resolution multiplier
    0 0 false 0 0 0 false.

(** [smoothValue] overwritten, for scenarios that start from a given value. *)
Definition startingAt (f : FastAnalogRead) (s : FastAnalogFixed)
  : FastAnalogRead :=
  with_filter f s (errorEMA f) (sleeping f).

(** The end-to-end scenario: resolution 1024, multiplier 0.01, sleep off,
    [smoothValue] at 512. *)
Definition scenario512 : FastAnalogRead :=
  startingAt (fresh false true 4 1024 (Q2Qc (1 # 100))) (ofInt 512).

(** Sleep on with threshold 5, settled on 512 by ten identical samples. *)
Definition settled512 : FastAnalogRead :=
  feed 10 (fresh true false 5 1024 1) 512.

(** Sleep off, resting half a unit below 512. *)
Definition resting511_5 : FastAnalogRead :=
  startingAt (fresh false true 4 1024 (Q2Qc (1 # 100))) (Q2Qc (1023 # 2)).

(** A new object with the usual configuration, sleep off. *)
Definition fresh_awake : FastAnalogRead :=
  fresh false true 4 1024 (Q2Qc (1 # 100)).

(** ** [update()]: the sample read from the pin *)

(** [analogRead] belongs to the Arduino core: its result for a pin is an
    input here.  The value read is passed on as a [uint16_t]. *)
Definition uint16 (z : Z) : Z := z mod 65536.

Definition update_read (analogRead : Z -> Z) (f : FastAnalogRead)
  : FastAnalogRead :=
  update f (uint16 (analogRead (pin f))).

(** ** [enableFastADC] *)

(** The bit indices of a 16-bit register. *)
Definition indices16 : list Z := List.map Z.of_nat (List.seq 0 16).

(** The function keeps its state in function-local statics, shared by all
    objects; they are passed explicitly together with the registers the
    function reads and writes.  Each platform branch ([#ifdef]) is a module
    of its own. *)

Module AVR.

(** [ADCSRA] is the 8-bit ADC control and status register. *)
Record state : Set := mkState {
  ADCSRA : Z;
  enabled : bool;
  prevState : Z
}.

Definition uint8 (z : Z) : Z := z mod 256.

(** [static bool enabled = false; static uint8_t prevState;] *)
Definition boot (adcsra : Z) : state := mkState adcsra false 0.

(** Lines 164-177 with [__AVR__] defined. *)
Definition enableFastADC (s : state) (enable : bool) : state :=
  if (enable && enabled s) || (negb enable && negb (enabled s)) then s
  else if enable then
    let prev := uint8 (Z.land (ADCSRA s) 7) in
    mkState (uint8 (Z.lor (Z.land (ADCSRA s) 248) 4)) true prev
  else
    mkState (uint8 (Z.lor (Z.land (ADCSRA s) 248) (prevState s)))
      false (prevState s).

(** Other code or the converter itself rewrites the register between two
    calls. *)
Definition poke (s : state) (adcsra : Z) : state :=
  mkState adcsra (enabled s) (prevState s).

End AVR.

Module SAMD21.

(** [CTRLB] is a 16-bit register, [AVGCTRL] and [SAMPCTRL] are 8-bit ones;
    [CTRLA_ENABLE] is the bit [CTRLA.bit.ENABLE].  [SYNCBUSY] lists the
    readings of [STATUS.bit.SYNCBUSY] still to come, the converter being
    busy for finitely many of them; with none left it reads as idle. *)
Record state : Set := mkState {
  CTRLA_ENABLE : bool;
  CTRLB : Z;
  AVGCTRL : Z;
  SAMPCTRL : Z;
  SYNCBUSY : list bool;
  enabled : bool;
  prevCTRLB : Z;
  prevAVGCTRL : Z;
  prevSAMPCTRL : Z
}.

Definition uint32 (z : Z) : Z := z mod 4294967296.

(** [while (ADC->STATUS.bit.SYNCBUSY);] *)
Fixpoint syncWait (readings : list bool) : list bool :=
  match readings with
  | true :: rest => syncWait rest
  | false :: rest => rest
  | [] => []
  end.

Section Macros.

(** The device header's macros are not part of the sources: their values
    are parameters. *)
Variable ADC_CTRLB_PRESCALER_DIV64 : Z.
Variable ADC_AVGCTRL_SAMPLENUM_1 : Z.
Variable ADC_AVGCTRL_ADJRES : Z -> Z.

(** Lines 164-165 and 178-213 with [__SAMD21__] defined. *)
Definition enableFastADC (s : state) (enable : bool) : state :=
  if (enable && enabled s) || (negb enable && negb (enabled s)) then s
  else if enable then
    let busy := syncWait (SYNCBUSY s) in
    let pCTRLB := uint32 (Z.land (CTRLB s) 11100000000) in
    let pAVGCTRL := uint32 (AVGCTRL s) in
    let pSAMPCTRL := uint32 (SAMPCTRL s) in
    let ctrlb :=
      uint16 (Z.lor (Z.land (CTRLB s) 63743) ADC_CTRLB_PRESCALER_DIV64) in
    let avgctrl :=
      AVR.uint8 (Z.lor ADC_AVGCTRL_SAMPLENUM_1 (ADC_AVGCTRL_ADJRES 0)) in
    mkState true ctrlb avgctrl (AVR.uint8 0) (syncWait busy)
      true pCTRLB pAVGCTRL pSAMPCTRL
  else
    let busy := syncWait (SYNCBUSY s) in
    let ctrlb := uint16 (Z.lor (Z.land (CTRLB s) 63743) (prevCTRLB s)) in
    mkState true ctrlb (AVR.uint8 (prevAVGCTRL s))
      (AVR.uint8 (prevSAMPCTRL s)) (syncWait busy)
      false (prevCTRLB s) (prevAVGCTRL s) (prevSAMPCTRL s).

End Macros.

End SAMD21.

(** ** Arithmetic of the numeric type *)

Section FixedFacts.

Lemma gtb_true (x y : Qc) : (x >? y) = true <-> y < x.
Proof.
  unfold gtb. rewrite (Qcgt_alt x y).
  destruct (x ?= y); split; congruence.
Qed.

Lemma gtb_false (x y : Qc) : (x >? y) = false <-> x <= y.
Proof.
  unfold gtb. rewrite (Qcle_alt x y).
  destruct (x ?= y); split; congruence.
Qed.

Lemma ltb_true (x y : Qc) : (x <? y) = true <-> x < y.
Proof.
  unfold ltb. rewrite (Qclt_alt x y).
  destruct (x ?= y); split; congruence.
Qed.

Lemma ltb_false (x y : Qc) : (x <? y) = false <-> y <= x.
Proof.
  pose proof (ltb_true x y) as T. split; intro H.
  - apply Qcnot_lt_le. intro L. apply T in L. congruence.
  - destruct (x <? y); [|reflexivity].
    exfalso. apply (Qcle_not_lt _ _ H), T. reflexivity.
Qed.

End FixedFacts.

(** Statements about the numeric type are moved to [Q], where [lra] and
    [nra] decide them. *)
Lemma this_Q2Qc (q : Q) : (this (Q2Qc q) == q)%Q.
Proof. apply Qred_correct. Qed.

#[local] Instance Q2Qc_Proper : Proper (Qeq ==> eq) Q2Qc.
Proof. intros p q H. apply Q2Qc_eq_iff, H. Qed.

Ltac to_Q :=
  unfold const_c0, const_c1, const_c2, ofInt in *;
  unfold Qclt, Qcle, Qcdiv, Qcminus, Qcinv, Qcopp, Qcmult, Qcplus in *;
  repeat match goal with
         | H : context [this (Q2Qc _)] |- _ => setoid_rewrite this_Q2Qc in H
         | |- context [this (Q2Qc _)] => setoid_rewrite this_Q2Qc
         end;
  change (inject_Z 0) with 0%Q in *;
  change (inject_Z 1) with 1%Q in *;
  change (inject_Z 2) with 2%Q in *.

Ltac qc_eq := apply Qc_is_canon; to_Q.

(** Closed comparisons and equalities are settled by evaluation. *)
Ltac qc_closed :=
  first [ apply Qc_is_canon; vm_compute; reflexivity
        | vm_compute; first [ reflexivity | discriminate ] ].

Lemma ofInt_sub (a b : Z) : ofInt (a - b) = ofInt a - ofInt b.
Proof.
  qc_eq. unfold Z.sub. rewrite inject_Z_plus, inject_Z_opp. reflexivity.
Qed.

Lemma ofInt_le (a b : Z) : (a <= b)%Z <-> ofInt a <= ofInt b.
Proof. unfold Qcle. to_Q. rewrite Zle_Qle. reflexivity. Qed.

Lemma ofInt_lt (a b : Z) : (a < b)%Z <-> ofInt a < ofInt b.
Proof. unfold Qclt. to_Q. rewrite Zlt_Qlt. reflexivity. Qed.

Lemma ofInt_succ (a : Z) : ofInt (a + 1) = ofInt a + 1.
Proof. qc_eq. rewrite inject_Z_plus. reflexivity. Qed.

Ltac splits := repeat match goal with |- _ /\ _ => split end.

Section SnapCurve.

Lemma inv_succ_Q (a : Q) :
  (0 <= a)%Q -> (0 < / (a + 1) /\ / (a + 1) * (a + 1) == 1)%Q.
Proof.
  intro Ha. split.
  - apply Qinv_lt_0_compat. lra.
  - rewrite Qmult_comm. apply Qmult_inv_r. lra.
Qed.

(** The value computed before the cap, for a non-negative argument. *)
Lemma snapCurve_uncapped (x : Qc) :
  0 <= x ->
  0 <= (1 - 1 / (x + 1)) * ofInt 2 /\
  (1 <= x <-> 1 <= (1 - 1 / (x + 1)) * ofInt 2).
Proof.
  intro Hx. to_Q.
  destruct (inv_succ_Q x Hx) as [Hi He].
  set (i := (/ (x + 1))%Q) in *.
  split; [nra|]. split; intro H; nra.
Qed.

Lemma snapCurve_unfold (x : Qc) :
  snapCurve x =
  if (1 - 1 / (x + 1)) * ofInt 2 >? 1 then 1
  else (1 - 1 / (x + 1)) * ofInt 2.
Proof. reflexivity. Qed.

Lemma snapCurve_capped_shape (x : Qc) :
  0 <= x ->
  ((1 - 1 / (x + 1)) * ofInt 2 <= 1 ->
     snapCurve x = (1 - 1 / (x + 1)) * ofInt 2) /\
  (1 <= (1 - 1 / (x + 1)) * ofInt 2 -> snapCurve x = 1).
Proof.
  intro Hx. rewrite snapCurve_unfold. split; intro H.
  - apply gtb_false in H. rewrite H. reflexivity.
  - destruct ((1 - 1 / (x + 1)) * ofInt 2 >? 1) eqn:E; [reflexivity|].
    apply gtb_false in E. apply Qcle_antisym; assumption.
Qed.

End SnapCurve.

(** ** The snap curve *)

(** C3. For every [x >= 0], [snapCurve x] is the smaller of
    [(1 - 1/(x+1)) * 2] and [1]: it is that value when the value is at most
    [1], and [1] when the value is at least [1].  In particular
    [snapCurve 0 = 0], and [snapCurve x = 1] for every [x >= 1] (and for no
    smaller non-negative [x]). *)
Theorem snapCurve_capped_hyperbola (x : Qc) :
  0 <= x ->
  let y := (1 - 1 / (x + 1)) * ofInt 2 in
  (y <= 1 -> snapCurve x = y) /\
  (1 <= y -> snapCurve x = 1) /\
  snapCurve 0 = 0 /\
  (1 <= x -> snapCurve x = 1) /\
  (snapCurve x = 1 -> 1 <= x).
Proof.
  intros Hx y.
  destruct (snapCurve_uncapped x Hx) as [_ Hxy]. fold y in Hxy.
  destruct (snapCurve_capped_shape x Hx) as [Hle Hge]. fold y in Hle, Hge.
  split; [exact Hle|]. split; [exact Hge|].
  split; [|split].
  - qc_closed.
  - intro H. apply Hge, Hxy, H.
  - intro H. apply Hxy.
    destruct (Qclt_le_dec y 1) as [L|L]; [|exact L].
    rewrite (Hle (Qclt_le_weak _ _ L)) in H. rewrite H. apply Qcle_refl.
Qed.

Lemma snapCurve_capped_hyperbola_witness :
  0 <= Q2Qc (1 # 2) /\ snapCurve (Q2Qc (1 # 2)) = Q2Qc (2 # 3).
Proof.
  assert (H : 0 <= Q2Qc (1 # 2)) by qc_closed.
  split; [exact H|].
  rewrite (proj1 (snapCurve_capped_hyperbola _ H)); qc_closed.
Defined.

(** ** The multiplier setter *)

(** C9. [setSnapMultiplier] stores a multiplier in [[0,1]]: an argument
    above [1] stores [1], an argument below [0] stores [0], an argument in
    [[0,1]] is stored as it is ([-5] stores [0], [5] stores [1], [0.3]
    stores [0.3]); no other member changes, and [begin], which assigns
    through the setter, stores the same multiplier. *)
Theorem setSnapMultiplier_clamps (f : FastAnalogRead) (v : FastAnalogFixed) :
  let m := snapMultiplier (setSnapMultiplier f v) in
  (0 <= m /\ m <= 1) /\
  (1 < v -> m = 1) /\
  (v < 0 -> m = 0) /\
  (0 <= v -> v <= 1 -> m = v) /\
  snapMultiplier (setSnapMultiplier f (ofInt (-5))) = 0 /\
  snapMultiplier (setSnapMultiplier f (ofInt 5)) = 1 /\
  snapMultiplier (setSnapMultiplier f (Q2Qc (3 # 10))) = Q2Qc (3 # 10) /\
  setSnapMultiplier f v = with_snapMultiplier f m /\
  (forall (p : Z) (s : bool), snapMultiplier (begin f p s v) = m).
Proof.
  assert (Hb : forall (p : Z) (s : bool),
             snapMultiplier (begin f p s v)
             = snapMultiplier (setSnapMultiplier f v)).
  { intros p s. unfold begin, setSnapMultiplier.
    destruct (v >? const_c1); [|destruct (v <? const_c0)]; reflexivity. }
  cbv zeta. setoid_rewrite Hb. clear Hb.
  assert (Hm5 : (ofInt (-5) >? const_c1) = false) by reflexivity.
  assert (Hm5' : (ofInt (-5) <? const_c0) = true) by reflexivity.
  assert (H5 : (ofInt 5 >? const_c1) = true) by reflexivity.
  assert (H3 : (Q2Qc (3 # 10) >? const_c1) = false) by reflexivity.
  assert (H3' : (Q2Qc (3 # 10) <? const_c0) = false) by reflexivity.
  unfold setSnapMultiplier. rewrite Hm5, Hm5', H5, H3, H3'.
  change const_c1 with 1. change const_c0 with 0.
  destruct (v >? 1) eqn:G; [|destruct (v <? 0) eqn:L]; cbn;
    rewrite ?gtb_true, ?gtb_false, ?ltb_true, ?ltb_false in *;
    splits; intros; try reflexivity;
    solve [ to_Q; lra | exfalso; to_Q; lra ].
Qed.

(** ** The error estimator *)

(** C5. Every call of [update], sleeping or not, replaces [errorEMA] by
    [errorEMA + 0.4 * ((newValue - smoothValue) - errorEMA)], with
    [newValue] the edge-snapped input and [smoothValue] the value before the
    call; the sleeping flag of the call is computed from that new
    [errorEMA]. *)
Theorem errorEMA_updated_before_sleep (f : FastAnalogRead) (raw : Z) :
  let newValue := edgeSnap f (ofInt raw) in
  errorEMA (update f raw) =
    errorEMA f + Q2Qc (4 # 10) * ((newValue - smoothValue f) - errorEMA f) /\
  sleeping (update f raw) =
    (if sleepEnable f
     then abs (errorEMA (update f raw)) <? ofInt (activityThreshold f)
     else sleeping f) /\
  sleeps f raw =
    sleepEnable f &&
      (abs (errorEMA (update f raw)) <? ofInt (activityThreshold f)).
Proof.
  intro newValue.
  assert (E : errorEMA (update f raw) = nextErrorEMA f newValue).
  { unfold update, getResponsiveValue. fold newValue.
    destruct (sleepEnable f && nextSleeping f newValue); reflexivity. }
  assert (S : sleeping (update f raw) = nextSleeping f newValue).
  { unfold update, getResponsiveValue. fold newValue.
    destruct (sleepEnable f && nextSleeping f newValue); reflexivity. }
  splits.
  - rewrite E. unfold nextErrorEMA, errorMargin. f_equal.
    apply Qcmult_comm.
  - rewrite S, E. reflexivity.
  - rewrite E. unfold sleeps, nextSleeping. fold newValue.
    destruct (sleepEnable f); reflexivity.
Qed.

(** ** The edge snap *)

Lemma update_smoothValue (f : FastAnalogRead) (raw : Z) :
  smoothValue (update f raw) =
  let newValue := edgeSnap f (ofInt raw) in
  if sleeps f raw then smoothValue f
  else clampSmooth f
         (smoothValue f + (newValue - smoothValue f) * snapOf f newValue).
Proof.
  unfold update, getResponsiveValue, sleeps.
  destruct (sleepEnable f && nextSleeping f (edgeSnap f (ofInt raw)));
    reflexivity.
Qed.

Lemma update_responsiveValue (f : FastAnalogRead) (raw : Z) :
  responsiveValue (update f raw) = getInteger (smoothValue (update f raw)).
Proof.
  unfold update, getResponsiveValue.
  destruct (sleepEnable f && nextSleeping f (edgeSnap f (ofInt raw)));
    reflexivity.
Qed.

Lemma update_config (f : FastAnalogRead) (raw : Z) :
  sleepEnable (update f raw) = sleepEnable f /\
  edgeSnapEnable (update f raw) = edgeSnapEnable f /\
  activityThreshold (update f raw) = activityThreshold f /\
  analogResolution (update f raw) = analogResolution f /\
  snapMultiplier (update f raw) = snapMultiplier f.
Proof.
  unfold update, getResponsiveValue.
  destruct (sleepEnable f && nextSleeping f (edgeSnap f (ofInt raw)));
    cbn; splits; reflexivity.
Qed.

(** C6. With [sleepEnable] and [edgeSnapEnable] both set, a value below
    [activityThreshold] becomes [2*value - activityThreshold] (lower than
    the value), and otherwise a value above
    [analogResolution - activityThreshold] becomes
    [2*value + activityThreshold - analogResolution] (higher than the
    value); a value at neither edge, or any value when a flag is off, is left
    as it is.  The result is what the rest of the call works with. *)
Theorem edgeSnap_pushes_toward_edges
    (f : FastAnalogRead) (x : FastAnalogFixed) :
  let t := ofInt (activityThreshold f) in
  let r := ofInt (analogResolution f) in
  (sleepEnable f = true -> edgeSnapEnable f = true -> x < t ->
     edgeSnap f x = ofInt 2 * x - t /\ edgeSnap f x < x) /\
  (sleepEnable f = true -> edgeSnapEnable f = true -> t <= x -> r - t < x ->
     edgeSnap f x = ofInt 2 * x + t - r /\ x < edgeSnap f x) /\
  (sleepEnable f = true -> edgeSnapEnable f = true -> t <= x -> x <= r - t ->
     edgeSnap f x = x) /\
  (sleepEnable f = false \/ edgeSnapEnable f = false -> edgeSnap f x = x) /\
  (forall raw : Z,
     smoothValue (update f raw) =
     if sleeps f raw then smoothValue f
     else clampSmooth f
            (smoothValue f +
             (edgeSnap f (ofInt raw) - smoothValue f) *
             snapOf f (edgeSnap f (ofInt raw)))).
Proof.
  intros t r.
  assert (Hrt : ofInt (analogResolution f - activityThreshold f) = r - t).
  { apply ofInt_sub. }
  assert (U : edgeSnap f x =
              if sleepEnable f && edgeSnapEnable f then
                if x <? t then x - t + x
                else if x >? r - t then x + t - r + x else x
              else x).
  { unfold edgeSnap. rewrite Hrt. reflexivity. }
  splits.
  - intros Hs He H. rewrite U, Hs, He. cbn [andb].
    pose proof H as H'. apply ltb_true in H'. rewrite H'.
    split; [qc_eq|to_Q]; lra.
  - intros Hs He H1 H2. rewrite U, Hs, He. cbn [andb].
    pose proof H1 as H1'. apply ltb_false in H1'. rewrite H1'.
    pose proof H2 as H2'. apply gtb_true in H2'. rewrite H2'.
    split; [qc_eq|to_Q]; lra.
  - intros Hs He H1 H2. rewrite U, Hs, He. cbn [andb].
    apply ltb_false in H1. rewrite H1.
    apply gtb_false in H2. rewrite H2. reflexivity.
  - intros [Hs | He]; rewrite U.
    + rewrite Hs. reflexivity.
    + rewrite He, andb_false_r. reflexivity.
  - intro raw. exact (update_smoothValue f raw).
Qed.

Lemma edgeSnap_pushes_toward_edges_witness :
  edgeSnap (fresh true true 4 1024 1) (ofInt 1) = ofInt (-2) /\
  edgeSnap (fresh true true 4 1024 1) (ofInt 1022) = ofInt 1024 /\
  edgeSnap (fresh true true 4 1024 1) (ofInt 500) = ofInt 500 /\
  edgeSnap (fresh false true 4 1024 1) (ofInt 1) = ofInt 1.
Proof.
  splits.
  - rewrite (proj1 (proj1 (edgeSnap_pushes_toward_edges
                             (fresh true true 4 1024 1) (ofInt 1))
                      eq_refl eq_refl ltac:(qc_closed))).
    qc_closed.
  - rewrite (proj1 (proj1 (proj2 (edgeSnap_pushes_toward_edges
                             (fresh true true 4 1024 1) (ofInt 1022)))
                      eq_refl eq_refl ltac:(qc_closed) ltac:(qc_closed))).
    qc_closed.
  - apply (proj1 (proj2 (proj2 (edgeSnap_pushes_toward_edges
                             (fresh true true 4 1024 1) (ofInt 500))))
                 eq_refl eq_refl ltac:(qc_closed) ltac:(qc_closed)).
  - apply (proj1 (proj2 (proj2 (proj2 (edgeSnap_pushes_toward_edges
                             (fresh false true 4 1024 1) (ofInt 1)))))).
    left. reflexivity.
Defined.

(** ** The change flag *)

Lemma outputChanged_flag (f : FastAnalogRead) (raw : Z) :
  responsiveValueHasChanged (update f raw) =
    negb (responsiveValue (update f raw) =? responsiveValue f)%Z /\
  prevResponsiveValue (update f raw) = responsiveValue f.
Proof.
  unfold update. destruct (getResponsiveValue f (ofInt raw)).
  split; reflexivity.
Qed.

(** C10. A call of [update] sets [responsiveValueHasChanged] to whether the
    integer output of this call differs from the integer output stored by
    the call before it, whatever the flag was; the older output is kept in
    [prevResponsiveValue]. *)
Theorem outputChanged_compares_consecutive_outputs
    (f : FastAnalogRead) (raw : Z) :
  responsiveValueHasChanged (update f raw) =
    negb (responsiveValue (update f raw) =? responsiveValue f)%Z /\
  prevResponsiveValue (update f raw) = responsiveValue f /\
  (responsiveValueHasChanged (update f raw) = true <->
     responsiveValue (update f raw) <> responsiveValue f) /\
  (forall raw' : Z,
     responsiveValueHasChanged (update (update f raw) raw') = true <->
     responsiveValue (update (update f raw) raw') <>
       responsiveValue (update f raw)).
Proof.
  assert (I : forall g r,
             responsiveValueHasChanged (update g r) = true <->
             responsiveValue (update g r) <> responsiveValue g).
  { intros g r. rewrite (proj1 (outputChanged_flag g r)), negb_true_iff.
    apply Z.eqb_neq. }
  splits.
  - apply outputChanged_flag.
  - apply outputChanged_flag.
  - apply I.
  - intro raw'. apply I.
Qed.

(** ** Truncation, absolute value and the clamp *)

Section Truncation.

Lemma getInteger_small (x : Qc) : 0 <= x -> x < 1 -> getInteger x = 0%Z.
Proof.
  unfold Qcle, Qclt, Qle, Qlt, getInteger. cbn. intros H0 H1.
  apply Z.quot_small. lia.
Qed.

Lemma getInteger_floor (x : Qc) :
  0 <= x -> ofInt (getInteger x) <= x /\ x < ofInt (getInteger x + 1).
Proof.
  intro H0.
  assert (E : getInteger x = Qfloor x).
  { unfold getInteger, Qfloor. unfold Qcle, Qle in H0. cbn in H0.
    destruct (this x) as [n d]. cbn in *.
    apply Z.quot_div_nonneg; lia. }
  rewrite E. to_Q. split; [apply Qfloor_le | apply Qlt_floor].
Qed.

Lemma abs_lt (x c : Qc) : abs x < c <-> - c < x /\ x < c.
Proof.
  unfold abs. destruct (x >? 0) eqn:E.
  - apply gtb_true in E. split; [intro H; split | intros [H1 H2]]; to_Q; lra.
  - apply gtb_false in E. split; [intro H; split | intros [H1 H2]]; to_Q; lra.
Qed.

Lemma abs_sub_sym (x y : Qc) : abs (x - y) = abs (y - x).
Proof.
  unfold abs.
  destruct (x - y >? 0) eqn:E1; destruct (y - x >? 0) eqn:E2;
    rewrite ?gtb_true, ?gtb_false in *; qc_eq; lra.
Qed.

End Truncation.

Section Clamp.

Variable f : FastAnalogRead.

Lemma clampSmooth_in_range (s : Qc) :
  (1 <= analogResolution f)%Z ->
  0 <= clampSmooth f s /\ clampSmooth f s <= ofInt (analogResolution f - 1).
Proof.
  intro Hres. rewrite Zle_Qle in Hres.
  rewrite ofInt_sub. unfold clampSmooth.
  destruct (s <? const_c0) eqn:L;
    [|destruct (s >? ofInt (analogResolution f) - const_c1) eqn:G];
    rewrite ?gtb_true, ?gtb_false, ?ltb_true, ?ltb_false in *;
    split; to_Q; lra.
Qed.

Lemma clampSmooth_id (s : Qc) :
  0 <= s -> s <= ofInt (analogResolution f - 1) -> clampSmooth f s = s.
Proof.
  intros H0 H1. rewrite ofInt_sub in H1. unfold clampSmooth.
  assert (L : (s <? const_c0) = false) by (apply ltb_false; exact H0).
  assert (G : (s >? ofInt (analogResolution f) - const_c1) = false)
    by (apply gtb_false; exact H1).
  rewrite L, G. reflexivity.
Qed.

End Clamp.

(** ** Bounds of [smoothValue] *)

Lemma trace_in_bounds (raws : list Z) :
  forall f : FastAnalogRead,
    (1 <= analogResolution f)%Z -> in_bounds f ->
    Forall in_bounds (trace f raws).
Proof.
  induction raws as [|r rest IH]; intros f Hres Hin; cbn.
  - constructor.
  - assert (Hstep : in_bounds (update f r)).
    { unfold in_bounds.
      rewrite update_smoothValue,
      (proj1 (proj2 (proj2 (proj2 (update_config f r))))).
      cbv zeta. destruct (sleeps f r).
      - exact Hin.
      - apply clampSmooth_in_range, Hres. }
    constructor; [exact Hstep|].
    apply IH; [|exact Hstep].
    rewrite (proj1 (proj2 (proj2 (proj2 (update_config f r))))). exact Hres.
Qed.

(** C1. For samples in [[0, analogResolution)], a call of [update] either
    sleeps and leaves [smoothValue] as it was, or ends with [smoothValue]
    clamped into [[0, analogResolution - 1]]; so from an object whose
    [smoothValue] is in that range, and in particular from a zero-initialised
    one under any configuration, it is in that range after every call of any
    sequence. *)
Theorem smoothValue_stays_in_bounds (f : FastAnalogRead) (raws : list Z) :
  Forall (fun r => 0 <= r < analogResolution f)%Z raws ->
  (forall r : Z, In r raws ->
     if sleeps f r then smoothValue (update f r) = smoothValue f
     else in_bounds (update f r)) /\
  (in_bounds f -> Forall in_bounds (trace f raws)) /\
  (forall (sleepOn edgeOn : bool) (threshold : Z)
          (multiplier : FastAnalogFixed),
     Forall in_bounds
       (trace (fresh sleepOn edgeOn threshold (analogResolution f) multiplier)
              raws)).
Proof.
  intro Hraws. splits.
  - intros r Hr. rewrite Forall_forall in Hraws. specialize (Hraws r Hr).
    unfold in_bounds.
    rewrite update_smoothValue,
      (proj1 (proj2 (proj2 (proj2 (update_config f r))))).
    cbv zeta. destruct (sleeps f r); [reflexivity|].
    apply clampSmooth_in_range. lia.
  - intro Hin. destruct raws as [|r rest]; [constructor|].
    apply trace_in_bounds; [|exact Hin].
    inversion Hraws; subst. lia.
  - intros sleepOn edgeOn threshold multiplier.
    destruct raws as [|r rest]; [constructor|].
    assert (Hres : (1 <= analogResolution f)%Z)
      by (inversion Hraws; subst; lia).
    apply trace_in_bounds; [exact Hres|].
    split; [qc_closed|]. apply (proj1 (ofInt_le 0 _)). cbn. lia.
Qed.

Lemma smoothValue_stays_in_bounds_witness :
  Forall in_bounds
    (trace (fresh true true 4 1024 (Q2Qc (1 # 100)))
           [600; 0; 1023; 3]%Z).
Proof.
  apply (proj1 (proj2 (smoothValue_stays_in_bounds
           (fresh true true 4 1024 (Q2Qc (1 # 100)))
           [600; 0; 1023; 3]%Z ltac:(repeat constructor; cbn; lia)))).
  split; qc_closed.
Defined.

(** ** The sleep freeze *)

Lemma sleeping_step (f : FastAnalogRead) (raw : Z) :
  sleeps f raw = true ->
  smoothValue (update f raw) = smoothValue f /\
  responsiveValue (update f raw) = getInteger (smoothValue f).
Proof.
  intro H.
  assert (E : smoothValue (update f raw) = smoothValue f).
  { rewrite update_smoothValue. cbv zeta. rewrite H. reflexivity. }
  split; [exact E|]. rewrite update_responsiveValue, E. reflexivity.
Qed.

Lemma sleeping_run (raws : list Z) :
  forall f : FastAnalogRead,
    output_fresh f -> all_sleep f raws = true ->
    Forall (fun g => responsiveValue g = responsiveValue f /\
                     smoothValue g = smoothValue f /\
                     responsiveValueHasChanged g = false)
           (trace f raws).
Proof.
  induction raws as [|r rest IH]; intros f Hf Hall; cbn in *.
  - constructor.
  - apply andb_true_iff in Hall. destruct Hall as [Hs Hrest].
    destruct (sleeping_step f r Hs) as [Es Er].
    assert (Er' : responsiveValue (update f r) = responsiveValue f)
      by (rewrite Er; symmetry; exact Hf).
    assert (Ec : responsiveValueHasChanged (update f r) = false).
    { rewrite (proj1 (outputChanged_flag f r)), Er', Z.eqb_refl.
      reflexivity. }
    constructor; [splits; assumption|].
    assert (Hf' : output_fresh (update f r))
      by apply update_responsiveValue.
    specialize (IH (update f r) Hf' Hrest).
    rewrite Er', Es in IH. exact IH.
Qed.

(** C2. When [sleepEnable] is set and the freshly updated [errorEMA] is
    below [activityThreshold] in absolute value, [update] leaves
    [smoothValue] as it was and returns its integer truncation, which is the
    output of the call before when that output was the truncation of
    [smoothValue]; and over any further calls that all sleep, every
    returned output equals the output of the last call before them. *)
Theorem sleeping_freezes_output (f : FastAnalogRead) (raw : Z) :
  sleepEnable f = true ->
  abs (nextErrorEMA f (edgeSnap f (ofInt raw))) < ofInt (activityThreshold f) ->
  smoothValue (update f raw) = smoothValue f /\
  responsiveValue (update f raw) = getInteger (smoothValue f) /\
  (output_fresh f ->
     responsiveValue (update f raw) = responsiveValue f /\
     responsiveValueHasChanged (update f raw) = false) /\
  (forall (f0 : FastAnalogRead) (r0 : Z) (raws : list Z),
     all_sleep (update f0 r0) raws = true ->
     Forall (fun g => responsiveValue g = responsiveValue (update f0 r0) /\
                      smoothValue g = smoothValue (update f0 r0))
            (trace (update f0 r0) raws)).
Proof.
  intros Hen Herr.
  assert (Hs : sleeps f raw = true).
  { unfold sleeps, nextSleeping. rewrite Hen. cbn [andb].
    apply ltb_true, Herr. }
  destruct (sleeping_step f raw Hs) as [Es Er].
  splits; try assumption.
  - intro Hf.
    assert (Er' : responsiveValue (update f raw) = responsiveValue f)
      by (rewrite Er; symmetry; exact Hf).
    split; [exact Er'|].
    rewrite (proj1 (outputChanged_flag f raw)), Er', Z.eqb_refl.
    reflexivity.
  - intros f0 r0 raws Hall.
    pose proof (sleeping_run raws (update f0 r0)
                  (update_responsiveValue f0 r0) Hall) as H.
    eapply Forall_impl; [|exact H].
    cbv beta. intros g (H1 & H2 & _). split; assumption.
Qed.

Lemma sleeping_freezes_output_witness :
  responsiveValue settled512 = 512%Z /\
  sleepEnable settled512 = true /\
  smoothValue (update settled512 514) = smoothValue settled512 /\
  responsiveValue (update settled512 514) = 512%Z.
Proof.
  assert (Hen : sleepEnable settled512 = true) by (vm_compute; reflexivity).
  assert (Herr : abs (nextErrorEMA settled512 (edgeSnap settled512 (ofInt 514)))
                 < ofInt (activityThreshold settled512)) by qc_closed.
  assert (Hf : output_fresh settled512) by (vm_compute; reflexivity).
  pose proof (sleeping_freezes_output settled512 514 Hen Herr)
    as (H1 & _ & H3 & _).
  splits; [vm_compute; reflexivity | exact Hen | exact H1 |].
  rewrite (proj1 (H3 Hf)). vm_compute; reflexivity.
Defined.

(** ** Stopping within one unit of the input *)

Lemma deviation_small (f : FastAnalogRead) (x : FastAnalogFixed) :
  abs (x - smoothValue f) < 1 -> deviation f x = 0%Z.
Proof.
  intro H. apply abs_lt in H. destruct H as [Hlo Hhi].
  unfold deviation. destruct (x >? smoothValue f) eqn:E;
    rewrite ?gtb_true, ?gtb_false in E;
    apply getInteger_small; to_Q; lra.
Qed.

Lemma snapOf_small (f : FastAnalogRead) (x : FastAnalogFixed) :
  abs (x - smoothValue f) < 1 -> snapOf f x = 0.
Proof.
  intro H. unfold snapOf. rewrite (deviation_small f x H).
  replace (ofInt 0 * snapMultiplier f) with 0 by (qc_eq; lra).
  qc_closed.
Qed.

Lemma update_small (f : FastAnalogRead) (raw : Z) :
  abs (edgeSnap f (ofInt raw) - smoothValue f) < 1 ->
  in_bounds f ->
  smoothValue (update f raw) = smoothValue f.
Proof.
  intros H [H0 H1]. rewrite update_smoothValue. cbv zeta.
  destruct (sleeps f raw); [reflexivity|].
  rewrite (snapOf_small f _ H).
  replace (smoothValue f + (edgeSnap f (ofInt raw) - smoothValue f) * 0)
    with (smoothValue f) by (qc_eq; lra).
  apply clampSmooth_id; assumption.
Qed.

Lemma edgeSnap_config (f g : FastAnalogRead) (x : FastAnalogFixed) :
  sleepEnable g = sleepEnable f ->
  edgeSnapEnable g = edgeSnapEnable f ->
  activityThreshold g = activityThreshold f ->
  analogResolution g = analogResolution f ->
  edgeSnap g x = edgeSnap f x.
Proof. unfold edgeSnap. intros -> -> -> ->. reflexivity. Qed.

Lemma edgeSnap_update (f : FastAnalogRead) (raw : Z) (x : FastAnalogFixed) :
  edgeSnap (update f raw) x = edgeSnap f x.
Proof.
  destruct (update_config f raw) as (H1 & H2 & H3 & H4 & _).
  apply edgeSnap_config; assumption.
Qed.

Lemma feed_small (n : nat) :
  forall (f : FastAnalogRead) (raw : Z),
    abs (edgeSnap f (ofInt raw) - smoothValue f) < 1 ->
    in_bounds f ->
    smoothValue (feed n f raw) = smoothValue f.
Proof.
  induction n as [|n IH]; intros f raw H Hin; cbn; [reflexivity|].
  pose proof (update_small f raw H Hin) as E.
  rewrite IH.
  - exact E.
  - rewrite edgeSnap_update, E. exact H.
  - unfold in_bounds.
    rewrite E, (proj1 (proj2 (proj2 (proj2 (update_config f raw))))).
    exact Hin.
Qed.

(** C8. When the (edge-snapped) input differs from [smoothValue] by less
    than [1], the truncated deviation is [0], the snap is [snapCurve 0 = 0],
    and [update] leaves [smoothValue] (within its bounds) exactly as it was;
    the same input fed again and again never moves it, so the filter rests
    up to one unit away from its input. *)
Theorem within_one_unit_is_fixed (f : FastAnalogRead) (raw : Z) :
  let newValue := edgeSnap f (ofInt raw) in
  abs (newValue - smoothValue f) < 1 ->
  deviation f newValue = 0%Z /\
  snapOf f newValue = snapCurve 0 /\
  snapCurve 0 = 0 /\
  (in_bounds f ->
     smoothValue (update f raw) = smoothValue f /\
     forall n : nat, smoothValue (feed n f raw) = smoothValue f).
Proof.
  intros newValue H. splits.
  - apply deviation_small, H.
  - rewrite (snapOf_small f newValue H). symmetry. qc_closed.
  - qc_closed.
  - intro Hin. split.
    + apply update_small; assumption.
    + intro n. apply feed_small; assumption.
Qed.

Lemma within_one_unit_is_fixed_witness :
  abs (edgeSnap resting511_5 (ofInt 512) - smoothValue resting511_5) < 1 /\
  in_bounds resting511_5 /\
  smoothValue (update resting511_5 512) = smoothValue resting511_5 /\
  smoothValue (feed 7 resting511_5 512) = smoothValue resting511_5.
Proof.
  assert (H : abs (edgeSnap resting511_5 (ofInt 512)
                   - smoothValue resting511_5) < 1) by qc_closed.
  assert (Hin : in_bounds resting511_5) by (split; qc_closed).
  pose proof (proj2 (proj2 (proj2 (within_one_unit_is_fixed
                                     resting511_5 512 H))) Hin) as [U F].
  splits; [exact H | exact Hin | exact U | exact (F 7%nat)].
Defined.

(** ** Shape of the snap curve *)

Section SnapCurveShape.

(** [snapCurve] through the reciprocal [i = 1/(x+1)], over [Q]. *)
Lemma snapCurve_reciprocal (x : Qc) :
  0 <= x ->
  exists i : Q,
    (0 < i /\ i * (x + 1) == 1 /\
     (2 - 2 * i <= 1 -> snapCurve x == 2 - 2 * i) /\
     (1 <= 2 - 2 * i -> snapCurve x == 1))%Q.
Proof.
  intro Hx.
  destruct (snapCurve_capped_shape x Hx) as (Hle & Hge).
  exists (/ (x + 1))%Q.
  assert (Hx' : (0 <= x)%Q) by (to_Q; exact Hx).
  destruct (inv_succ_Q x Hx') as [Hi He].
  assert (Ey : (this ((1 - 1 / (x + 1)) * ofInt 2) == 2 - 2 * / (x + 1))%Q).
  { to_Q. lra. }
  splits; try assumption.
  - intro H. rewrite Hle; [exact Ey|]. unfold Qcle. rewrite Ey. exact H.
  - intro H. rewrite Hge; [reflexivity|]. unfold Qcle. rewrite Ey. exact H.
Qed.

Lemma snapCurve_range (x : Qc) : 0 <= x -> 0 <= snapCurve x /\ snapCurve x <= 1.
Proof.
  intro Hx. destruct (snapCurve_reciprocal x Hx) as (i & Hi & He & Hle & Hge).
  to_Q. destruct (Qlt_le_dec 1 (2 - 2 * i)) as [C|C].
  - rewrite Hge by lra. split; lra.
  - rewrite Hle by lra. split; nra.
Qed.

Lemma snapCurve_pos (x : Qc) : 0 < x -> 0 < snapCurve x.
Proof.
  intro Hx.
  assert (Hx0 : 0 <= x) by (apply Qclt_le_weak, Hx).
  destruct (snapCurve_reciprocal x Hx0) as (i & Hi & He & Hle & Hge).
  to_Q. destruct (Qlt_le_dec 1 (2 - 2 * i)) as [C|C].
  - rewrite Hge by lra. lra.
  - rewrite Hle by lra. nra.
Qed.

Lemma snapCurve_mono (x y : Qc) :
  0 <= x -> x <= y -> snapCurve x <= snapCurve y.
Proof.
  intros Hx Hxy.
  assert (Hy : 0 <= y) by (apply (Qcle_trans _ _ _ Hx Hxy)).
  destruct (snapCurve_reciprocal x Hx) as (i & Hi & Hei & Hlei & Hgei).
  destruct (snapCurve_reciprocal y Hy) as (j & Hj & Hej & Hlej & Hgej).
  to_Q.
  assert (Hji : (j <= i)%Q).
  { assert (0 <= i * j * (y - x))%Q
      by (apply Qmult_le_0_compat; [apply Qmult_le_0_compat|]; lra).
    nra. }
  destruct (Qlt_le_dec 1 (2 - 2 * i)) as [Ci|Ci];
    destruct (Qlt_le_dec 1 (2 - 2 * j)) as [Cj|Cj].
  - rewrite Hgei, Hgej by lra. lra.
  - lra.
  - rewrite Hlei, Hgej by lra. lra.
  - rewrite Hlei, Hlej by lra. lra.
Qed.

End SnapCurveShape.

(** ** The same sample over and over, sleep disabled *)

Section Repeated.

Lemma abs_cases (x : Qc) : (0 <= x /\ abs x = x) \/ (x <= 0 /\ abs x = - x).
Proof.
  unfold abs. destruct (x >? 0) eqn:E.
  - left. apply gtb_true in E. split; [apply Qclt_le_weak, E | reflexivity].
  - right. apply gtb_false in E. split; [exact E | reflexivity].
Qed.

Lemma abs_cases_Q (x : Qc) :
  ((0 <= x)%Q /\ (abs x == x)%Q) \/ ((x <= 0)%Q /\ (abs x == - x)%Q).
Proof.
  destruct (abs_cases x) as [[H E] | [H E]]; rewrite E; [left | right];
    split; to_Q; lra.
Qed.

(** A convex combination of two values of an interval stays inside. *)
Lemma between_Q (s v t lo hi : Q) :
  (lo <= s -> s <= hi -> lo <= v -> v <= hi -> 0 <= t -> t <= 1 ->
   lo <= s + (v - s) * t /\ s + (v - s) * t <= hi)%Q.
Proof.
  intros.
  assert (0 <= (s - lo) * (1 - t))%Q by (apply Qmult_le_0_compat; lra).
  assert (0 <= (v - lo) * t)%Q by (apply Qmult_le_0_compat; lra).
  assert (0 <= (hi - s) * (1 - t))%Q by (apply Qmult_le_0_compat; lra).
  assert (0 <= (hi - v) * t)%Q by (apply Qmult_le_0_compat; lra).
  split; lra.
Qed.

(** Scaling an error [e] by [1 - t] shrinks its magnitude. *)
Lemma shrink_Q (e t c a a' : Q) :
  (0 <= t -> t <= 1 ->
   (0 <= e /\ a == e) \/ (e <= 0 /\ a == - e) ->
   (0 <= e * (1 - t) /\ a' == e * (1 - t)) \/
     (e * (1 - t) <= 0 /\ a' == - (e * (1 - t))) ->
   a' <= a /\ (1 <= a -> 0 <= c -> c <= t -> a' <= a - c))%Q.
Proof.
  intros Ht0 Ht1 [[He Ea] | [He Ea]] [[He' Ea'] | [He' Ea']];
    (split; [|intros H1 Hc0 Hct]); nra.
Qed.

(** [diff] is the truncation of the distance. *)
Lemma deviation_floor (f : FastAnalogRead) (x : FastAnalogFixed) :
  (0 <= deviation f x)%Z /\
  (1 <= abs (x - smoothValue f) -> (1 <= deviation f x)%Z).
Proof.
  assert (G : forall y : Qc, 0 <= y ->
                (0 <= getInteger y)%Z /\ (1 <= y -> (1 <= getInteger y)%Z)).
  { intros y Hy. destruct (getInteger_floor y Hy) as [_ Hup].
    split.
    - assert (ofInt 0 < ofInt (getInteger y + 1)) by (to_Q; lra).
      apply (proj2 (ofInt_lt _ _)) in H. lia.
    - intro H1.
      assert (ofInt 1 < ofInt (getInteger y + 1)) by (to_Q; lra).
      apply (proj2 (ofInt_lt _ _)) in H. lia. }
  unfold deviation.
  destruct (abs_cases (x - smoothValue f)) as [[Hs Ea] | [Hs Ea]];
    rewrite Ea; destruct (x >? smoothValue f) eqn:E;
    rewrite ?gtb_true, ?gtb_false in E.
  - apply G. exact Hs.
  - replace (smoothValue f - x) with (x - smoothValue f)
      by (qc_eq; lra).
    apply G. exact Hs.
  - exfalso. to_Q. lra.
  - replace (- (x - smoothValue f)) with (smoothValue f - x)
      by (qc_eq; lra).
    apply G. to_Q. lra.
Qed.

Variable v : Z.

Lemma awake_update (f : FastAnalogRead) : awake v f -> awake v (update f v).
Proof.
  intros (H1 & H2 & H3).
  destruct (update_config f v) as (E1 & _ & _ & E4 & E5).
  unfold awake. rewrite E1, E4, E5. splits; try assumption; lia.
Qed.

Lemma awake_smoothValue (f : FastAnalogRead) :
  awake v f ->
  smoothValue (update f v) =
  clampSmooth f
    (smoothValue f + (ofInt v - smoothValue f) * snapOf f (ofInt v)).
Proof.
  intros (Hs & _). rewrite update_smoothValue. cbv zeta.
  unfold sleeps, edgeSnap. rewrite Hs. reflexivity.
Qed.

Lemma awake_in_bounds (f : FastAnalogRead) :
  awake v f -> in_bounds (update f v).
Proof.
  intros Ha. unfold in_bounds.
  rewrite (awake_smoothValue f Ha),
    (proj1 (proj2 (proj2 (proj2 (update_config f v))))).
  apply clampSmooth_in_range. destruct Ha as (_ & _ & H). lia.
Qed.

Lemma ofInt_scale (d : Z) (m : Qc) :
  0 <= m ->
  ((0 <= d)%Z -> 0 <= ofInt d * m) /\ ((1 <= d)%Z -> m <= ofInt d * m).
Proof.
  intro Hm. split; intro Hd; apply (proj1 (ofInt_le _ _)) in Hd;
    to_Q; nra.
Qed.

Lemma snapOf_range (f : FastAnalogRead) (x : FastAnalogFixed) :
  0 <= snapMultiplier f -> 0 <= snapOf f x /\ snapOf f x <= 1.
Proof.
  intro Hm. unfold snapOf. apply snapCurve_range.
  apply (ofInt_scale _ _ Hm), deviation_floor.
Qed.

Lemma snapOf_far (f : FastAnalogRead) (x : FastAnalogFixed) :
  0 <= snapMultiplier f ->
  1 <= abs (x - smoothValue f) ->
  snapCurve (snapMultiplier f) <= snapOf f x.
Proof.
  intros Hm H1. unfold snapOf. apply snapCurve_mono; [exact Hm|].
  apply (ofInt_scale _ _ Hm), deviation_floor, H1.
Qed.

(** The arithmetic of one awake call, [s] the old value and [t] the snap. *)
Lemma blend_toward (s x t c hi : Qc) :
  0 <= s -> s <= hi -> 0 <= x -> x <= hi -> 0 <= t -> t <= 1 ->
  (0 <= s + (x - s) * t /\ s + (x - s) * t <= hi) /\
  abs (x - (s + (x - s) * t)) <= abs (x - s) /\
  (1 <= abs (x - s) -> 0 <= c -> c <= t ->
   abs (x - (s + (x - s) * t)) <= abs (x - s) - c).
Proof.
  intros Hs0 Hs1 Hx0 Hx1 Ht0 Ht1.
  assert (Ed : x - (s + (x - s) * t) = (x - s) * (1 - t)) by (qc_eq; lra).
  rewrite Ed. clear Ed. split.
  - to_Q. apply between_Q; assumption.
  - clear Hs0 Hs1 Hx0 Hx1.
    set (e := x - s). clearbody e.
    pose proof (abs_cases_Q e) as Ca.
    pose proof (abs_cases_Q (e * (1 - t))) as Ca'.
    set (a := abs e) in *. set (a' := abs (e * (1 - t))) in *.
    clearbody a a'. to_Q.
    destruct (shrink_Q e t c a a' Ht0 Ht1 Ca Ca') as [S1 S2].
    split; [exact S1|]. intros H1 Hc0 Hct. apply S2; assumption.
Qed.

(** One call moves [smoothValue] toward the sample, by at least
    [snapCurve snapMultiplier] while the distance is one unit or more. *)
Lemma awake_step (f : FastAnalogRead) :
  awake v f -> in_bounds f ->
  abs (ofInt v - smoothValue (update f v)) <= abs (ofInt v - smoothValue f) /\
  (1 <= abs (ofInt v - smoothValue f) ->
   abs (ofInt v - smoothValue (update f v))
     <= abs (ofInt v - smoothValue f) - snapCurve (snapMultiplier f)).
Proof.
  intros Ha [Hlo Hhi]. pose proof Ha as (Hs & Hm & Hv).
  assert (Hm0 : 0 <= snapMultiplier f) by (apply Qclt_le_weak, Hm).
  destruct (snapOf_range f (ofInt v) Hm0) as [Ht0 Ht1].
  assert (Hv0 : 0 <= ofInt v) by (apply (proj1 (ofInt_le 0 v)); lia).
  assert (Hv1 : ofInt v <= ofInt (analogResolution f - 1))
    by (apply (proj1 (ofInt_le v (analogResolution f - 1))); lia).
  destruct (blend_toward (smoothValue f) (ofInt v) (snapOf f (ofInt v))
              (snapCurve (snapMultiplier f)) _ Hlo Hhi Hv0 Hv1 Ht0 Ht1)
    as ([B0 B1] & S1 & S2).
  rewrite (awake_smoothValue f Ha), (clampSmooth_id f _ B0 B1).
  split; [exact S1|]. intro H1. apply S2; [exact H1 | |].
  - apply snapCurve_range, Hm0.
  - apply snapOf_far; assumption.
Qed.

Lemma feed_add (a b : nat) :
  forall f : FastAnalogRead, feed (a + b) f v = feed b (feed a f v) v.
Proof. induction a as [|a IH]; intro f; cbn; [reflexivity | apply IH]. Qed.

Lemma feed_last (n : nat) (f : FastAnalogRead) :
  feed (S n) f v = update (feed n f v) v.
Proof. rewrite <- Nat.add_1_r. apply feed_add. Qed.

Lemma awake_edgeSnap (f : FastAnalogRead) (x : FastAnalogFixed) :
  awake v f -> edgeSnap f x = x.
Proof. intros (Hs & _). unfold edgeSnap. rewrite Hs. reflexivity. Qed.

(** Within one unit of the sample nothing moves any more. *)
Lemma awake_rest (n : nat) (f : FastAnalogRead) :
  awake v f -> in_bounds f ->
  abs (ofInt v - smoothValue f) < 1 ->
  smoothValue (feed n f v) = smoothValue f.
Proof.
  intros Ha Hin H. apply feed_small; [|exact Hin].
  rewrite (awake_edgeSnap f _ Ha). exact H.
Qed.

(** A distance below [1 + k * snapCurve snapMultiplier] is brought below
    one unit by [k] calls. *)
Lemma feed_reaches (k : nat) :
  forall f : FastAnalogRead,
    awake v f -> in_bounds f ->
    abs (ofInt v - smoothValue f)
      < 1 + ofInt (Z.of_nat k) * snapCurve (snapMultiplier f) ->
    abs (ofInt v - smoothValue (feed k f v)) < 1.
Proof.
  induction k as [|k IH]; intros f Ha Hin H.
  - change (Z.of_nat 0) with 0%Z in H. cbn [feed].
    replace (1 + ofInt 0 * snapCurve (snapMultiplier f)) with 1 in H
      by (qc_eq; lra).
    exact H.
  - destruct (Qclt_le_dec (abs (ofInt v - smoothValue f)) 1) as [C|C].
    + rewrite (awake_rest (S k) f Ha Hin C). exact C.
    + cbn [feed]. apply IH.
      * apply awake_update, Ha.
      * unfold in_bounds.
        pose proof (awake_in_bounds f Ha) as B. exact B.
      * rewrite (proj2 (proj2 (proj2 (proj2 (update_config f v))))).
        destruct (awake_step f Ha Hin) as [_ S2]. specialize (S2 C).
        rewrite Nat2Z.inj_succ in H. unfold Z.succ in H.
        rewrite ofInt_succ in H.
        set (c := snapCurve (snapMultiplier f)) in *.
        set (d := abs (ofInt v - smoothValue f)) in *.
        set (d' := abs (ofInt v - smoothValue (update f v))) in *.
        set (z := ofInt (Z.of_nat k)) in *.
        clearbody c d d' z. clear - H S2. to_Q. lra.
Qed.

Lemma archimedes (d c : Qc) :
  0 < c -> exists k : nat, d < 1 + ofInt (Z.of_nat k) * c.
Proof.
  intro Hc. exists (Z.to_nat (Qceiling (d / c))).
  pose proof (Qle_ceiling (d / c)) as Hq.
  assert (Hz : (Qceiling (d / c) <= Z.of_nat (Z.to_nat (Qceiling (d / c))))%Z)
    by lia.
  rewrite Zle_Qle in Hz.
  set (z := inject_Z (Z.of_nat (Z.to_nat (Qceiling (d / c))))) in *.
  assert (Hd : (c * (d / c) == d)%Q).
  { apply Qmult_div_r. intro E. unfold Qclt in Hc. rewrite E in Hc.
    revert Hc. to_Q. lra. }
  to_Q. fold z.
  set (q := (d / c)%Q) in *. set (w := inject_Z (Qceiling q)) in *.
  clearbody q w z. nra.
Qed.

End Repeated.

(** C7 does not hold as stated: from a new object with multiplier 0.01 and
    sleep off, feeding [1] over and over leaves [smoothValue] at [2/101]. *)
Lemma repeated_sample_stalls_short : ~ converges_to fresh_awake 1.
Proof.
  intro H.
  destruct (H (Q2Qc (1 # 2)) ltac:(qc_closed)) as [N HN].
  specialize (HN (S N) ltac:(lia)). cbn [feed] in HN.
  rewrite (feed_small N (update fresh_awake 1) 1) in HN.
  - vm_compute in HN. discriminate HN.
  - qc_closed.
  - split; qc_closed.
Qed.

(** C7, amended. With sleep off and a positive multiplier, feeding the same
    in-range sample [v] brings [smoothValue] to less than one unit from [v]
    within finitely many calls; from then on [smoothValue] no longer moves
    and [responsiveValueHasChanged] is false on every call. *)
Theorem repeated_sample_settles_within_one_unit
    (f : FastAnalogRead) (v : Z) :
  sleepEnable f = false ->
  0 < snapMultiplier f ->
  (0 <= v < analogResolution f)%Z ->
  exists N : nat, forall n : nat, (N <= n)%nat ->
    abs (smoothValue (feed n f v) - ofInt v) < 1 /\
    smoothValue (feed n f v) = smoothValue (feed N f v) /\
    responsiveValueHasChanged (feed n f v) = false.
Proof.
  intros Hs Hm Hv.
  assert (Ha : awake v f) by (unfold awake; splits; try assumption; lia).
  set (g := update f v).
  assert (Hag : awake v g) by apply (awake_update v f Ha).
  assert (Hig : in_bounds g) by apply (awake_in_bounds v f Ha).
  assert (Hc : 0 < snapCurve (snapMultiplier g))
    by (apply snapCurve_pos, Hag).
  destruct (archimedes (abs (ofInt v - smoothValue g)) _ Hc) as [k Hk].
  pose proof (feed_reaches v k g Hag Hig Hk) as Hnear.
  set (h := feed k g v) in *.
  assert (Hah : awake v h).
  { subst h. clear Hk Hnear. induction k as [|k IH].
    - exact Hag.
    - rewrite feed_last. apply awake_update, IH. }
  assert (Hih : in_bounds h).
  { subst h. clear Hk Hnear Hah. destruct k as [|k].
    - exact Hig.
    - rewrite feed_last. apply awake_in_bounds.
      clear Hc. induction k as [|k IH].
      + exact Hag.
      + rewrite feed_last. apply awake_update, IH. }
  assert (Hrest : forall j, smoothValue (feed j h v) = smoothValue h)
    by (intro j; apply (awake_rest v j h Hah Hih Hnear)).
  assert (Hsplit : forall j, feed (1 + k + j) f v = feed j h v).
  { intro j. rewrite (feed_add v (1 + k) j f), (feed_add v 1 k f).
    reflexivity. }
  exists (1 + k + 1)%nat. intros n Hn.
  replace n with (1 + k + S (n - (1 + k + 1)))%nat by lia.
  rewrite !Hsplit, !Hrest. splits.
  - rewrite abs_sub_sym. exact Hnear.
  - reflexivity.
  - set (j := (n - (1 + k + 1))%nat).
    rewrite feed_last, (proj1 (outputChanged_flag _ _)).
    rewrite (update_responsiveValue (feed j h v) v), <- feed_last, Hrest.
    assert (E : responsiveValue (feed j h v) = getInteger (smoothValue h)).
    { destruct j as [|j].
      - cbn [feed]. subst h. destruct k as [|k].
        + cbn [feed]. subst g. apply update_responsiveValue.
        + rewrite feed_last, update_responsiveValue, <- feed_last.
          reflexivity.
      - rewrite feed_last, update_responsiveValue, <- feed_last, Hrest.
        reflexivity. }
    rewrite E, Z.eqb_refl. reflexivity.
Qed.

Lemma repeated_sample_settles_within_one_unit_witness :
  exists N : nat, forall n : nat, (N <= n)%nat ->
    abs (smoothValue (feed n fresh_awake 1) - ofInt 1) < 1 /\
    smoothValue (feed n fresh_awake 1) = smoothValue (feed N fresh_awake 1) /\
    responsiveValueHasChanged (feed n fresh_awake 1) = false.
Proof.
  apply (repeated_sample_settles_within_one_unit fresh_awake 1).
  - reflexivity.
  - qc_closed.
  - cbn. lia.
Defined.

(** ** The end-to-end scenario *)

(** C4 does not hold as stated: the scenario returns 594, not a value
    around 543. *)
Lemma end_to_end_is_not_543 :
  ~ (542 <= responsiveValue (update scenario512 600) <= 544)%Z.
Proof.
  intros [_ H]. vm_compute in H. apply H. reflexivity.
Qed.

(** C4, amended. With resolution 1024, multiplier 0.01, sleep off and
    [smoothValue = 512], one call with raw value 600 computes [diff = 88]
    and [snap = snapCurve 0.88 = 44/47] (about 0.936), leaves
    [smoothValue = 512 + (44/47) * 88 = 27936/47] (about 594.38) and
    returns 594. *)
Theorem end_to_end_scenario (f : FastAnalogRead) :
  analogResolution f = 1024%Z ->
  snapMultiplier f = Q2Qc (1 # 100) ->
  sleepEnable f = false ->
  smoothValue f = ofInt 512 ->
  deviation f (edgeSnap f (ofInt 600)) = 88%Z /\
  snapOf f (edgeSnap f (ofInt 600)) = snapCurve (Q2Qc (88 # 100)) /\
  snapCurve (Q2Qc (88 # 100)) = Q2Qc (44 # 47) /\
  smoothValue (update f 600) = ofInt 512 + Q2Qc (44 # 47) * ofInt 88 /\
  smoothValue (update f 600) = Q2Qc (27936 # 47) /\
  responsiveValue (update f 600) = 594%Z.
Proof.
  destruct f as [p se ee th res m s e sl rw rv prv ch].
  cbn [analogResolution snapMultiplier sleepEnable smoothValue].
  intros -> -> -> ->.
  splits; try (vm_compute; reflexivity); apply Qc_is_canon; vm_compute;
    reflexivity.
Qed.

Lemma end_to_end_scenario_witness :
  smoothValue (update scenario512 600) = Q2Qc (27936 # 47) /\
  responsiveValue (update scenario512 600) = 594%Z.
Proof.
  pose proof (end_to_end_scenario scenario512 eq_refl eq_refl eq_refl eq_refl)
    as (_ & _ & _ & _ & H1 & H2).
  split; [exact H1 | exact H2].
Defined.


(** * Further properties of the filter *)

Section Weights.

Lemma scale_Q (d t : Q) :
  (0 <= t -> t <= 1 ->
   (0 <= d -> 0 <= d * t /\ d * t <= d) /\
   (d <= 0 -> d <= d * t /\ d * t <= 0))%Q.
Proof. intros Ht0 Ht1. split; intro Hd; split; nra. Qed.


Lemma snapCurve_saturated (x : Qc) : 1 <= x -> snapCurve x = 1.
Proof.
  intro H1.
  assert (Hx : 0 <= x) by (revert H1; to_Q; lra).
  apply (snapCurve_capped_shape x Hx), (snapCurve_uncapped x Hx), H1.
Qed.

Lemma snapCurve_strict (x y : Qc) :
  0 <= x -> x < y -> y <= 1 -> snapCurve x < snapCurve y.
Proof.
  intros Hx Hxy Hy1.
  assert (Hy : 0 <= y) by (revert Hx Hxy; to_Q; lra).
  destruct (snapCurve_reciprocal x Hx) as (i & Hi & Hei & Hlei & _).
  destruct (snapCurve_reciprocal y Hy) as (j & Hj & Hej & Hlej & _).
  to_Q.
  assert (Hji : (j < i)%Q).
  { assert (0 < i * j * (y - x))%Q
      by (apply Qmult_lt_0_compat; [apply Qmult_lt_0_compat|]; lra).
    nra. }
  assert (Hj2 : (1 <= 2 * j)%Q) by nra.
  rewrite Hlei, Hlej by lra. lra.
Qed.

End Weights.

(** X1. [snapCurve] never decreases on non-negative arguments, and it
    increases strictly below the saturation point [1]: a larger deviation
    never gets a smaller weight. *)
Theorem snapCurve_monotone (x y : Qc) :
  0 <= x -> x <= y ->
  snapCurve x <= snapCurve y /\
  (x < y -> y <= 1 -> snapCurve x < snapCurve y).
Proof.
  intros Hx Hxy. split.
  - apply snapCurve_mono; assumption.
  - intros Hlt Hy. apply snapCurve_strict; assumption.
Qed.

Lemma snapCurve_monotone_witness :
  snapCurve (Q2Qc (1 # 4)) < snapCurve (Q2Qc (1 # 2)).
Proof.
  apply (proj2 (snapCurve_monotone (Q2Qc (1 # 4)) (Q2Qc (1 # 2))
                  ltac:(qc_closed) ltac:(qc_closed)));
    qc_closed.
Defined.


Section Output.

Lemma this_ofInt (z : Z) : this (ofInt z) = inject_Z z.
Proof.
  unfold ofInt, Q2Qc. cbn [this]. apply Qred_identity. cbn.
  apply Z.gcd_1_r.
Qed.

Lemma getInteger_ofInt (z : Z) : getInteger (ofInt z) = z.
Proof. unfold getInteger. rewrite this_ofInt. cbn. apply Z.quot_1_r. Qed.

Lemma getInteger_range (s : Qc) (hi : Z) :
  0 <= s -> s <= ofInt hi -> (0 <= getInteger s <= hi)%Z.
Proof.
  intros H0 H1. destruct (getInteger_floor s H0) as [Hlo Hup].
  assert (A : ofInt 0 < ofInt (getInteger s + 1)) by (to_Q; lra).
  assert (B : ofInt (getInteger s) <= ofInt hi)
    by (apply (Qcle_trans _ _ _ Hlo H1)).
  apply (proj2 (ofInt_lt _ _)) in A. apply (proj2 (ofInt_le _ _)) in B. lia.
Qed.

(** The clamp of a blend of [s] and [x] stays between [s] and [x] when [s]
    is inside the bounds. *)
Lemma clamped_blend_between (f : FastAnalogRead) (s x t : Qc) :
  0 <= s -> s <= ofInt (analogResolution f - 1) -> 0 <= t -> t <= 1 ->
  (s <= x ->
   s <= clampSmooth f (s + (x - s) * t) /\
   clampSmooth f (s + (x - s) * t) <= x) /\
  (x <= s ->
   x <= clampSmooth f (s + (x - s) * t) /\
   clampSmooth f (s + (x - s) * t) <= s).
Proof.
  intros Hs0 Hs1 Ht0 Ht1. rewrite ofInt_sub in Hs1. unfold clampSmooth.
  set (hi := ofInt (analogResolution f)) in *. clearbody hi.
  assert (P : ((0 <= x - s -> 0 <= (x - s) * t /\ (x - s) * t <= x - s) /\
               (x - s <= 0 -> x - s <= (x - s) * t /\ (x - s) * t <= 0))%Q)
    by (apply scale_Q; assumption).
  destruct (s + (x - s) * t <? const_c0) eqn:L;
    [|destruct (s + (x - s) * t >? hi - const_c1) eqn:G];
    rewrite ?gtb_true, ?gtb_false, ?ltb_true, ?ltb_false in *;
    to_Q; (split; intro Hsx; split; lra).
Qed.

End Output.

(** X3. A call of [update] never overshoots: with a non-negative multiplier
    and [smoothValue] inside its bounds, the new [smoothValue] lies between
    the old one and the (edge-snapped) input, ends included. *)
Theorem update_moves_between (f : FastAnalogRead) (raw : Z) :
  0 <= snapMultiplier f ->
  in_bounds f ->
  (smoothValue f <= edgeSnap f (ofInt raw) ->
   smoothValue f <= smoothValue (update f raw) /\
   smoothValue (update f raw) <= edgeSnap f (ofInt raw)) /\
  (edgeSnap f (ofInt raw) <= smoothValue f ->
   edgeSnap f (ofInt raw) <= smoothValue (update f raw) /\
   smoothValue (update f raw) <= smoothValue f).
Proof.
  intros Hm [H0 H1]. rewrite update_smoothValue. cbv zeta.
  destruct (sleeps f raw).
  - split; intro H; split; first [apply Qcle_refl | exact H].
  - destruct (snapOf_range f (edgeSnap f (ofInt raw)) Hm) as [Ht0 Ht1].
    apply clamped_blend_between; assumption.
Qed.

Lemma update_moves_between_witness :
  smoothValue scenario512 <= smoothValue (update scenario512 600) /\
  smoothValue (update scenario512 600) <= ofInt 600.
Proof.
  apply (proj1 (update_moves_between scenario512 600
                  ltac:(qc_closed) ltac:(split; qc_closed))).
  qc_closed.
Defined.

(** X4. A deviation whose truncation times the multiplier reaches [1] gets
    the full weight: an awake call then sets [smoothValue] to the clamped
    (edge-snapped) input, and without edge snap an in-range sample is
    returned as it came. *)
Theorem large_move_is_followed_at_once (f : FastAnalogRead) (raw : Z) :
  sleeps f raw = false ->
  1 <= ofInt (deviation f (edgeSnap f (ofInt raw))) * snapMultiplier f ->
  smoothValue (update f raw) = clampSmooth f (edgeSnap f (ofInt raw)) /\
  (sleepEnable f && edgeSnapEnable f = false ->
   (0 <= raw < analogResolution f)%Z ->
   smoothValue (update f raw) = ofInt raw /\
   responsiveValue (update f raw) = raw).
Proof.
  intros Hs Hbig.
  assert (E : smoothValue (update f raw)
              = clampSmooth f (edgeSnap f (ofInt raw))).
  { rewrite update_smoothValue. cbv zeta. rewrite Hs.
    unfold snapOf. rewrite (snapCurve_saturated _ Hbig). f_equal.
    qc_eq. lra. }
  split; [exact E|]. intros Hoff Hraw.
  assert (Ei : edgeSnap f (ofInt raw) = ofInt raw)
    by (unfold edgeSnap; rewrite Hoff; reflexivity).
  assert (Es : smoothValue (update f raw) = ofInt raw).
  { rewrite E, Ei. apply clampSmooth_id.
    - apply (proj1 (ofInt_le 0 raw)). lia.
    - apply (proj1 (ofInt_le raw _)). lia. }
  split; [exact Es|].
  rewrite update_responsiveValue, Es. apply getInteger_ofInt.
Qed.

Lemma large_move_is_followed_at_once_witness :
  responsiveValue (update (fresh false true 4 1024 1) 777) = 777%Z.
Proof.
  apply (proj2 (large_move_is_followed_at_once (fresh false true 4 1024 1) 777
                  ltac:(vm_compute; reflexivity) ltac:(qc_closed))).
  - reflexivity.
  - cbn. lia.
Defined.

(** X5. Whatever integer is passed or read from the pin, in range or not,
    an object whose [smoothValue] is inside its bounds keeps it there, and
    the integer output lies in [[0, analogResolution - 1]]. *)
Theorem output_always_in_range (f : FastAnalogRead) (raw : Z) :
  in_bounds f ->
  (in_bounds (update f raw) /\
   (0 <= responsiveValue (update f raw) <= analogResolution f - 1)%Z) /\
  (forall analogRead : Z -> Z,
     in_bounds (update_read analogRead f) /\
     (0 <= responsiveValue (update_read analogRead f)
        <= analogResolution f - 1)%Z).
Proof.
  intro Hin.
  assert (Hres : (1 <= analogResolution f)%Z).
  { destruct Hin as [H0 H1].
    pose proof (Qcle_trans _ _ _ H0 H1) as H.
    apply (proj2 (ofInt_le 0 _)) in H. lia. }
  assert (G : forall r : Z,
             in_bounds (update f r) /\
             (0 <= responsiveValue (update f r) <= analogResolution f - 1)%Z).
  { intro r.
    assert (B : in_bounds (update f r)).
    { unfold in_bounds.
      rewrite update_smoothValue,
        (proj1 (proj2 (proj2 (proj2 (update_config f r))))).
      cbv zeta. destruct (sleeps f r); [exact Hin|].
      apply clampSmooth_in_range, Hres. }
    split; [exact B|].
    rewrite update_responsiveValue. destruct B as [B0 B1].
    rewrite (proj1 (proj2 (proj2 (proj2 (update_config f r))))) in B1.
    apply getInteger_range; assumption. }
  split; [apply G|]. intro analogRead. apply G.
Qed.

Lemma output_always_in_range_witness :
  (0 <= responsiveValue (update fresh_awake 60000) <= 1023)%Z.
Proof.
  apply (proj1 (output_always_in_range fresh_awake 60000
                  ltac:(split; qc_closed))).
Defined.

(** X6. [diff] is the integer part of the absolute deviation: it is
    non-negative and [diff <= |newValue - smoothValue| < diff + 1]. *)
Theorem deviation_is_truncated_distance
    (f : FastAnalogRead) (x : FastAnalogFixed) :
  (0 <= deviation f x)%Z /\
  ofInt (deviation f x) <= abs (x - smoothValue f) /\
  abs (x - smoothValue f) < ofInt (deviation f x + 1).
Proof.
  assert (E : deviation f x = getInteger (abs (x - smoothValue f))).
  { unfold deviation.
    destruct (abs_cases (x - smoothValue f)) as [[Hs Ea] | [Hs Ea]];
      rewrite Ea; destruct (x >? smoothValue f) eqn:G;
      rewrite ?gtb_true, ?gtb_false in G.
    - reflexivity.
    - f_equal. qc_eq. lra.
    - exfalso. to_Q. lra.
    - f_equal. qc_eq. lra. }
  assert (Ha : 0 <= abs (x - smoothValue f)).
  { destruct (abs_cases (x - smoothValue f)) as [[Hs Ea] | [Hs Ea]];
      rewrite Ea; to_Q; lra. }
  split; [apply deviation_floor|]. rewrite E.
  apply getInteger_floor, Ha.
Qed.

Section Sleep.

(** The estimator is a blend of its old value and the signed deviation. *)
Lemma nextErrorEMA_quiet (f : FastAnalogRead) (x t : FastAnalogFixed) :
  abs (errorEMA f) < t -> abs (x - smoothValue f) < t ->
  abs (nextErrorEMA f x) < t.
Proof.
  intros He Hd. apply abs_lt in He. apply abs_lt in Hd. apply abs_lt.
  unfold nextErrorEMA, errorMargin.
  set (e := errorEMA f) in *. set (s := smoothValue f) in *.
  clearbody e s. destruct He as [He1 He2]. destruct Hd as [Hd1 Hd2].
  split; to_Q; lra.
Qed.

Lemma nextErrorEMA_loud (f : FastAnalogRead) (x t : FastAnalogFixed) :
  abs (errorEMA f) <= t -> ofInt 4 * t <= abs (x - smoothValue f) ->
  t <= abs (nextErrorEMA f x).
Proof.
  intros He Hd. unfold nextErrorEMA, errorMargin.
  set (e := errorEMA f) in *. set (d := x - smoothValue f) in *.
  clearbody e d.
  destruct (abs_cases_Q e) as [[He0 Ea] | [He0 Ea]];
    destruct (abs_cases_Q d) as [[Hd0 Da] | [Hd0 Da]];
    destruct (abs_cases_Q (e + (d - e) * Q2Qc (4 # 10)))
      as [[Hn0 Na] | [Hn0 Na]];
    unfold Qcle in *; rewrite Ea in He; rewrite Da in Hd; rewrite Na;
    clear Ea Da Na; to_Q; change (inject_Z 4) with 4%Q in *; lra.
Qed.

Lemma quiet_run (raws : list Z) :
  forall f : FastAnalogRead,
    sleepEnable f = true ->
    abs (errorEMA f) < ofInt (activityThreshold f) ->
    Forall (fun r => abs (edgeSnap f (ofInt r) - smoothValue f)
                     < ofInt (activityThreshold f)) raws ->
    all_sleep f raws = true.
Proof.
  induction raws as [|r rest IH]; intros f Hen He Hraws; cbn [all_sleep].
  - reflexivity.
  - inversion Hraws as [|r' rest' Hr Hrest]; subst.
    pose proof (nextErrorEMA_quiet f _ _ He Hr) as Hq.
    assert (Hs : sleeps f r = true).
    { unfold sleeps, nextSleeping. rewrite Hen. cbn [andb].
      apply ltb_true, Hq. }
    rewrite Hs. cbn [andb].
    destruct (update_config f r) as (E1 & E2 & E3 & E4 & E5).
    destruct (sleeping_step f r Hs) as [Es _].
    apply IH.
    + rewrite E1. exact Hen.
    + rewrite E3.
      replace (errorEMA (update f r))
        with (nextErrorEMA f (edgeSnap f (ofInt r))); [exact Hq|].
      unfold update, getResponsiveValue.
      destruct (sleepEnable f && nextSleeping f (edgeSnap f (ofInt r)));
        reflexivity.
    + rewrite E3, Es. eapply Forall_impl; [|exact Hrest].
      cbv beta. intros a Ha. rewrite edgeSnap_update. exact Ha.
Qed.

End Sleep.

(** X7. With sleep enabled and [errorEMA] below the threshold, samples whose
    (edge-snapped) value stays within [activityThreshold] of [smoothValue]
    never wake the filter: every call sleeps, [smoothValue] stays put, and
    an output that was the truncation of [smoothValue] is returned again and
    again with the change flag off. *)
Theorem quiet_samples_keep_sleeping (f : FastAnalogRead) (raws : list Z) :
  sleepEnable f = true ->
  abs (errorEMA f) < ofInt (activityThreshold f) ->
  Forall (fun r => abs (edgeSnap f (ofInt r) - smoothValue f)
                   < ofInt (activityThreshold f)) raws ->
  all_sleep f raws = true /\
  (output_fresh f ->
   Forall (fun g => responsiveValue g = responsiveValue f /\
                    smoothValue g = smoothValue f /\
                    responsiveValueHasChanged g = false)
          (trace f raws)).
Proof.
  intros Hen He Hraws.
  pose proof (quiet_run raws f Hen He Hraws) as Hall.
  split; [exact Hall|]. intro Hf. apply sleeping_run; assumption.
Qed.

Lemma quiet_samples_keep_sleeping_witness :
  all_sleep settled512 [514; 509; 512; 516; 508]%Z = true.
Proof.
  apply (quiet_samples_keep_sleeping settled512 [514; 509; 512; 516; 508]%Z).
  - vm_compute; reflexivity.
  - qc_closed.
  - repeat constructor; qc_closed.
Defined.

(** X8. With sleep enabled and [errorEMA] at most the threshold in absolute
    value, a sample whose (edge-snapped) value is four thresholds or more
    away from [smoothValue] always wakes the filter: the call does not take
    the early return and [sleeping] is cleared. *)
Theorem distant_sample_wakes (f : FastAnalogRead) (raw : Z) :
  sleepEnable f = true ->
  abs (errorEMA f) <= ofInt (activityThreshold f) ->
  ofInt 4 * ofInt (activityThreshold f)
    <= abs (edgeSnap f (ofInt raw) - smoothValue f) ->
  sleeps f raw = false /\
  sleeping (update f raw) = false /\
  smoothValue (update f raw) =
    clampSmooth f
      (smoothValue f +
       (edgeSnap f (ofInt raw) - smoothValue f) *
       snapOf f (edgeSnap f (ofInt raw))).
Proof.
  intros Hen He Hd.
  pose proof (nextErrorEMA_loud f _ _ He Hd) as Hl.
  assert (Hn : nextSleeping f (edgeSnap f (ofInt raw)) = false).
  { unfold nextSleeping. rewrite Hen. apply ltb_false, Hl. }
  assert (Hs : sleeps f raw = false).
  { unfold sleeps. rewrite Hn. apply andb_false_r. }
  splits.
  - exact Hs.
  - unfold update, getResponsiveValue. rewrite Hn, andb_false_r. reflexivity.
  - rewrite update_smoothValue. cbv zeta. rewrite Hs. reflexivity.
Qed.

Lemma distant_sample_wakes_witness :
  sleeps settled512 532 = false /\ sleeping (update settled512 532) = false.
Proof.
  pose proof (distant_sample_wakes settled512 532
                ltac:(vm_compute; reflexivity) ltac:(qc_closed)
                ltac:(qc_closed)) as (H1 & H2 & _).
  split; [exact H1 | exact H2].
Defined.

(** X9. Assignments through [setSnapMultiplier] compose as plain
    assignments of the clamped value: the last call wins, and storing the
    stored multiplier again changes nothing. *)
Theorem setSnapMultiplier_last_wins
    (f : FastAnalogRead) (a b : FastAnalogFixed) :
  setSnapMultiplier (setSnapMultiplier f a) b = setSnapMultiplier f b /\
  setSnapMultiplier (setSnapMultiplier f a)
    (snapMultiplier (setSnapMultiplier f a)) = setSnapMultiplier f a.
Proof.
  split.
  - unfold setSnapMultiplier.
    destruct (b >? const_c1); [|destruct (b <? const_c0)];
      (destruct (a >? const_c1); [|destruct (a <? const_c0)]); reflexivity.
  - unfold setSnapMultiplier.
    destruct (a >? const_c1) eqn:G; [|destruct (a <? const_c0) eqn:L];
      cbn [with_snapMultiplier snapMultiplier].
    + replace (const_c1 >? const_c1) with false by reflexivity.
      replace (const_c1 <? const_c0) with false by reflexivity.
      reflexivity.
    + replace (const_c0 >? const_c1) with false by reflexivity.
      replace (const_c0 <? const_c0) with false by reflexivity.
      reflexivity.
    + rewrite G, L. reflexivity.
Qed.

(** * [enableFastADC] *)

Section Bits.

Local Open Scope Z_scope.

Lemma below_16 (n : Z) : 0 <= n < 16 -> In n indices16.
Proof.
  intro H. rewrite <- (Z2Nat.id n) by lia.
  apply in_map, in_seq. lia.
Qed.

(** Two values below [2^k] with the same [k] low bits are equal. *)
Lemma low_bits_eq (k a b : Z) :
  0 <= k ->
  (forall n, 0 <= n < k -> Z.testbit a n = Z.testbit b n) ->
  a mod 2 ^ k = b mod 2 ^ k.
Proof.
  intros Hk H. apply Z.bits_inj'. intros n Hn.
  rewrite !Z.testbit_mod_pow2 by lia.
  destruct (n <? k) eqn:E; [|reflexivity].
  apply Z.ltb_lt in E. cbn [andb]. apply H. lia.
Qed.

Lemma eq_of_low_bits (k a b : Z) :
  0 <= k -> 0 <= a < 2 ^ k -> 0 <= b < 2 ^ k ->
  (forall n, 0 <= n < k -> Z.testbit a n = Z.testbit b n) ->
  a = b.
Proof.
  intros Hk Ha Hb H.
  rewrite <- (Z.mod_small a (2 ^ k)), <- (Z.mod_small b (2 ^ k)) by lia.
  apply low_bits_eq; assumption.
Qed.

Lemma land_range (k x c : Z) :
  0 <= k -> 0 <= c < 2 ^ k -> 0 <= Z.land x c < 2 ^ k.
Proof.
  intros Hk Hc.
  assert (E : Z.land x c = Z.land x c mod 2 ^ k).
  { apply Z.bits_inj'. intros n Hn.
    rewrite Z.testbit_mod_pow2, Z.land_spec by lia.
    destruct (n <? k) eqn:L; [reflexivity|].
    rewrite <- (Z.mod_small c (2 ^ k)), Z.testbit_mod_pow2, L by lia.
    apply andb_false_r. }
  rewrite E. apply Z.mod_pos_bound. lia.
Qed.

Lemma land_zero_bit (a b n : Z) :
  Z.land a b = 0 -> Z.testbit a n && Z.testbit b n = false.
Proof.
  intro H. rewrite <- Z.land_spec, H. apply Z.bits_0.
Qed.

End Bits.

Ltac in_range :=
  first [ assumption
        | apply Z.mod_pos_bound; lia
        | apply land_range; lia
        | lia ].

(** Bitwise equalities on bytes and 16-bit words, index by index. *)
Ltac low_bits k :=
  let n := fresh "n" in
  let Hn := fresh "Hn" in
  let C := fresh "C" in
  apply (eq_of_low_bits k); [lia | in_range | in_range |];
  intros n Hn;
  repeat rewrite ?Z.land_spec, ?Z.lor_spec, ?Z.testbit_mod_pow2 by lia;
  assert (C : (0 <= n < 16)%Z) by lia;
  apply below_16 in C; cbv in C;
  repeat (destruct C as [C | C]); try contradiction; subst n;
  try lia.

(** The bits of the variables are the only unknowns left. *)
Ltac bits_done :=
  repeat match goal with
         | |- context [Z.testbit ?x ?i] =>
             is_var x;
             let b := fresh "b" in
             set (b := Z.testbit x i) in *; clearbody b
         end;
  cbn in *;
  repeat match goal with b : bool |- _ => destruct b end;
  solve [ reflexivity | discriminate ].

Section AVRFacts.

Lemma AVR_enable_step (s : AVR.state) :
  AVR.enabled s = false ->
  AVR.enableFastADC s true =
  AVR.mkState ((Z.lor (Z.land (AVR.ADCSRA s) 248) 4) mod 2 ^ 8) true
    (Z.land (AVR.ADCSRA s) 7 mod 2 ^ 8).
Proof.
  intro Hen. unfold AVR.enableFastADC. rewrite Hen. reflexivity.
Qed.

Lemma AVR_disable_step (s : AVR.state) :
  AVR.enabled s = true ->
  AVR.enableFastADC s false =
  AVR.mkState ((Z.lor (Z.land (AVR.ADCSRA s) 248) (AVR.prevState s)) mod 2 ^ 8)
    false (AVR.prevState s).
Proof.
  intro Hen. unfold AVR.enableFastADC. rewrite Hen. reflexivity.
Qed.

End AVRFacts.

(** X10. On AVR, enabling from the disabled state writes [100] into the
    three prescaler bits of [ADCSRA], keeps its five upper bits, and saves
    the prescaler bits that were there. *)
Theorem AVR_enable_sets_prescaler (s : AVR.state) :
  AVR.enabled s = false ->
  Z.land (AVR.ADCSRA (AVR.enableFastADC s true)) 7 = 4%Z /\
  Z.land (AVR.ADCSRA (AVR.enableFastADC s true)) 248
    = Z.land (AVR.ADCSRA s) 248 /\
  (0 <= AVR.ADCSRA (AVR.enableFastADC s true) < 256)%Z /\
  AVR.prevState (AVR.enableFastADC s true) = Z.land (AVR.ADCSRA s) 7 /\
  AVR.enabled (AVR.enableFastADC s true) = true.
Proof.
  intro Hen. rewrite (AVR_enable_step s Hen).
  cbn [AVR.ADCSRA AVR.prevState AVR.enabled].
  set (r := AVR.ADCSRA s). clearbody r.
  split; [|split; [|split; [|split]]].
  - low_bits 8%Z; bits_done.
  - low_bits 8%Z; bits_done.
  - change 256%Z with (2 ^ 8)%Z. in_range.
  - apply Z.mod_small. in_range.
  - reflexivity.
Qed.

Lemma AVR_enable_sets_prescaler_witness :
  Z.land (AVR.ADCSRA (AVR.enableFastADC (AVR.boot 135) true)) 7 = 4%Z /\
  Z.land (AVR.ADCSRA (AVR.enableFastADC (AVR.boot 135) true)) 248 = 128%Z.
Proof.
  pose proof (AVR_enable_sets_prescaler (AVR.boot 135) eq_refl)
    as (H1 & H2 & _).
  split; [exact H1 | exact H2].
Defined.

(** X11. On AVR, disabling after enabling puts back the prescaler bits that
    were in [ADCSRA] before the enabling call and keeps the five upper bits
    the register holds at that moment; with the register untouched in
    between, an 8-bit [ADCSRA] gets its old value back. *)
Theorem AVR_disable_restores_prescaler (s : AVR.state) (later : Z) :
  AVR.enabled s = false ->
  (0 <= later < 256)%Z ->
  AVR.ADCSRA
    (AVR.enableFastADC (AVR.poke (AVR.enableFastADC s true) later) false)
    = Z.lor (Z.land later 248) (Z.land (AVR.ADCSRA s) 7) /\
  AVR.enabled
    (AVR.enableFastADC (AVR.poke (AVR.enableFastADC s true) later) false)
    = false /\
  ((0 <= AVR.ADCSRA s < 256)%Z ->
   AVR.ADCSRA (AVR.enableFastADC (AVR.enableFastADC s true) false)
     = AVR.ADCSRA s).
Proof.
  intros Hen Hlater. rewrite (AVR_enable_step s Hen).
  rewrite !AVR_disable_step by reflexivity.
  cbn [AVR.poke AVR.ADCSRA AVR.prevState AVR.enabled].
  set (r := AVR.ADCSRA s). clearbody r.
  assert (R : (0 <= Z.lor (Z.land later 248) (Z.land r 7) < 2 ^ 8)%Z).
  { pose proof (land_range 8 later 248 ltac:(lia) ltac:(lia)) as A.
    pose proof (land_range 8 r 7 ltac:(lia) ltac:(lia)) as B.
    split; [apply Z.lor_nonneg; lia|].
    apply Z.log2_lt_cancel. rewrite Z.log2_pow2 by lia.
    destruct (Z.eq_dec (Z.lor (Z.land later 248) (Z.land r 7)) 0) as [E|E];
      [rewrite E; cbn; lia|].
    rewrite Z.log2_lor by lia.
    apply Z.max_lub_lt.
    - destruct (Z.eq_dec (Z.land later 248) 0) as [E1|E1];
        [rewrite E1; cbn; lia|].
      apply Z.log2_lt_pow2; lia.
    - destruct (Z.eq_dec (Z.land r 7) 0) as [E1|E1];
        [rewrite E1; cbn; lia|].
      apply Z.log2_lt_pow2; lia. }
  split; [|split].
  - low_bits 8%Z; bits_done.
  - reflexivity.
  - intro Hr. change 256%Z with (2 ^ 8)%Z in Hr.
    low_bits 8%Z; bits_done.
Qed.

Lemma AVR_disable_restores_prescaler_witness :
  AVR.ADCSRA
    (AVR.enableFastADC
       (AVR.poke (AVR.enableFastADC (AVR.boot 135) true) 196) false)
    = 199%Z.
Proof.
  rewrite (proj1 (AVR_disable_restores_prescaler (AVR.boot 135) 196
                    eq_refl ltac:(lia))).
  reflexivity.
Defined.

(** X12. A call that asks for the mode the function is already in returns
    at once: nothing is written, on either platform.  So repeating a call
    changes nothing further, and the values saved by the first enabling
    call survive a second one. *)
Theorem enableFastADC_same_mode_is_noop
    (a : AVR.state) (d : SAMD21.state) (b : bool)
    (DIV64 SAMPLENUM_1 : Z) (ADJRES : Z -> Z) :
  AVR.enableFastADC a (AVR.enabled a) = a /\
  AVR.enableFastADC (AVR.enableFastADC a b) b = AVR.enableFastADC a b /\
  SAMD21.enableFastADC DIV64 SAMPLENUM_1 ADJRES d (SAMD21.enabled d) = d /\
  SAMD21.enableFastADC DIV64 SAMPLENUM_1 ADJRES
    (SAMD21.enableFastADC DIV64 SAMPLENUM_1 ADJRES d b) b
    = SAMD21.enableFastADC DIV64 SAMPLENUM_1 ADJRES d b.
Proof.
  split; [|split; [|split]].
  - unfold AVR.enableFastADC. destruct (AVR.enabled a); reflexivity.
  - unfold AVR.enableFastADC.
    destruct b, (AVR.enabled a) eqn:E; cbn; rewrite ?E; reflexivity.
  - unfold SAMD21.enableFastADC. destruct (SAMD21.enabled d); reflexivity.
  - unfold SAMD21.enableFastADC.
    destruct b, (SAMD21.enabled d) eqn:E; cbn; rewrite ?E; reflexivity.
Qed.

Section SAMD21Facts.

Variable DIV64 SAMPLENUM_1 : Z.
Variable ADJRES : Z -> Z.

Lemma SAMD21_round_trip_registers (s : SAMD21.state) :
  SAMD21.enabled s = false ->
  let s2 :=
    SAMD21.enableFastADC DIV64 SAMPLENUM_1 ADJRES
      (SAMD21.enableFastADC DIV64 SAMPLENUM_1 ADJRES s true) false in
  SAMD21.CTRLB s2 =
    ((Z.lor
        (Z.land
           ((Z.lor (Z.land (SAMD21.CTRLB s) 63743) DIV64) mod 2 ^ 16) 63743)
        ((Z.land (SAMD21.CTRLB s) 11100000000) mod 2 ^ 32)) mod 2 ^ 16)%Z /\
  SAMD21.AVGCTRL s2 = (((SAMD21.AVGCTRL s) mod 2 ^ 32) mod 2 ^ 8)%Z /\
  SAMD21.SAMPCTRL s2 = (((SAMD21.SAMPCTRL s) mod 2 ^ 32) mod 2 ^ 8)%Z /\
  SAMD21.CTRLA_ENABLE s2 = true /\
  SAMD21.enabled s2 = false.
Proof.
  intro Hen. unfold SAMD21.enableFastADC. rewrite Hen.
  cbn [andb orb negb SAMD21.enabled SAMD21.CTRLB SAMD21.AVGCTRL
       SAMD21.SAMPCTRL SAMD21.CTRLA_ENABLE SAMD21.prevCTRLB
       SAMD21.prevAVGCTRL SAMD21.prevSAMPCTRL SAMD21.SYNCBUSY].
  repeat split.
Qed.

End SAMD21Facts.

(** X13. On SAMD21, with the prescaler macro's value inside the prescaler
    field (bits 8 to 10 of [CTRLB]), disabling after enabling gives [CTRLB],
    [AVGCTRL] and [SAMPCTRL] their old values back and leaves the converter
    switched on.  The mask of line 187, a decimal literal, keeps bits 8 to
    11 and 15 of [CTRLB], the prescaler field among them. *)
Theorem SAMD21_disable_restores_registers
    (DIV64 SAMPLENUM_1 : Z) (ADJRES : Z -> Z) (s : SAMD21.state) :
  SAMD21.enabled s = false ->
  (0 <= SAMD21.CTRLB s < 65536)%Z ->
  (0 <= SAMD21.AVGCTRL s < 256)%Z ->
  (0 <= SAMD21.SAMPCTRL s < 256)%Z ->
  Z.land DIV64 63743 = 0%Z ->
  let s2 :=
    SAMD21.enableFastADC DIV64 SAMPLENUM_1 ADJRES
      (SAMD21.enableFastADC DIV64 SAMPLENUM_1 ADJRES s true) false in
  SAMD21.CTRLB s2 = SAMD21.CTRLB s /\
  SAMD21.AVGCTRL s2 = SAMD21.AVGCTRL s /\
  SAMD21.SAMPCTRL s2 = SAMD21.SAMPCTRL s /\
  SAMD21.CTRLA_ENABLE s2 = true /\
  SAMD21.enabled s2 = false /\
  Z.land 11100000000 65535 = 36608%Z.
Proof.
  intros Hen Hb Ha Hs Hd s2.
  destruct (SAMD21_round_trip_registers DIV64 SAMPLENUM_1 ADJRES s Hen)
    as (Eb & Ea & Es & Ee & En).
  fold s2 in Eb, Ea, Es, Ee, En.
  split; [|split; [|split; [|split; [|split]]]];
    try assumption; try reflexivity.
  - rewrite Eb. clear Eb Ea Es Ee En s2.
    set (r := SAMD21.CTRLB s) in *. clearbody r.
    change 65536%Z with (2 ^ 16)%Z in Hb.
    assert (D : forall n, Z.testbit DIV64 n && Z.testbit 63743 n = false)
      by (intro n; apply land_zero_bit, Hd).
    low_bits 16%Z;
      match goal with
      | |- context [Z.testbit DIV64 ?i] =>
          let H := fresh "H" in pose proof (D i) as H; clear D
      end;
      bits_done.
  - rewrite Ea. rewrite (Z.mod_small (SAMD21.AVGCTRL s)) by lia.
    apply Z.mod_small. lia.
  - rewrite Es. rewrite (Z.mod_small (SAMD21.SAMPCTRL s)) by lia.
    apply Z.mod_small. lia.
Qed.

Lemma SAMD21_disable_restores_registers_witness :
  SAMD21.CTRLB
    (SAMD21.enableFastADC 1024 0 (fun v => Z.shiftl v 4)
       (SAMD21.enableFastADC 1024 0 (fun v => Z.shiftl v 4)
          (SAMD21.mkState false 544 7 63 [true; true; false] false 0 0 0)
          true) false)
    = 544%Z.
Proof.
  apply (SAMD21_disable_restores_registers 1024 0 (fun v => Z.shiftl v 4)
           (SAMD21.mkState false 544 7 63 [true; true; false] false 0 0 0));
    first [ reflexivity | cbn; lia ].
Defined.

(** * A multiplier of zero *)

Lemma frozen_run (raws : list Z) :
  forall f : FastAnalogRead,
    snapMultiplier f = 0 -> in_bounds f ->
    Forall (fun g => smoothValue g = smoothValue f) (trace f raws).
Proof.
  induction raws as [|r rest IH]; intros f Hm Hin; cbn [trace].
  - constructor.
  - assert (E : smoothValue (update f r) = smoothValue f).
    { rewrite update_smoothValue. cbv zeta.
      destruct (sleeps f r); [reflexivity|].
      unfold snapOf. rewrite Hm.
      replace (ofInt (deviation f (edgeSnap f (ofInt r))) * 0) with 0
        by (qc_eq; lra).
      replace (snapCurve 0) with 0 by qc_closed.
      replace (smoothValue f + (edgeSnap f (ofInt r) - smoothValue f) * 0)
        with (smoothValue f) by (qc_eq; lra).
      destruct Hin as [H0 H1]. apply clampSmooth_id; assumption. }
    constructor; [exact E|].
    destruct (update_config f r) as (_ & _ & _ & E4 & E5).
    rewrite <- E. apply IH.
    + rewrite E5. exact Hm.
    + unfold in_bounds. rewrite E, E4. exact Hin.
Qed.

(** X14. A multiplier that is zero or negative is stored as [0], and with a
    multiplier of [0] the weight of every sample is [snapCurve 0 = 0]: an
    object whose [smoothValue] is inside its bounds then never moves it,
    whatever samples follow. *)
Theorem zero_multiplier_freezes
    (f : FastAnalogRead) (m : FastAnalogFixed) (raws : list Z) :
  m <= 0 ->
  in_bounds f ->
  snapMultiplier (setSnapMultiplier f m) = 0 /\
  Forall (fun g => smoothValue g = smoothValue f)
         (trace (setSnapMultiplier f m) raws).
Proof.
  intros Hm Hin.
  assert (E : setSnapMultiplier f m = with_snapMultiplier f 0).
  { unfold setSnapMultiplier.
    assert (G : (m >? const_c1) = false)
      by (apply gtb_false; revert Hm; to_Q; lra).
    rewrite G. destruct (m <? const_c0) eqn:L; [reflexivity|].
    apply ltb_false in L. f_equal. apply Qcle_antisym; assumption. }
  rewrite E. split; [reflexivity|].
  apply (frozen_run raws (with_snapMultiplier f 0)); [reflexivity|].
  exact Hin.
Qed.

Lemma zero_multiplier_freezes_witness :
  Forall (fun g => smoothValue g = ofInt 512)
         (trace (setSnapMultiplier scenario512 (ofInt (-5)))
                [600; 0; 1023]%Z).
Proof.
  apply (proj2 (zero_multiplier_freezes scenario512 (ofInt (-5))
                  [600; 0; 1023]%Z ltac:(qc_closed)
                  ltac:(split; qc_closed))).
Defined.
